(** * Mooch switcher: credential rotation on rate-limit errors

    A shallow embedding of [mooch/switcher.py] and the properties of its
    retry loop.

    - [Py]: the fragment of Python values, exceptions and results the
      switcher manipulates.
    - [MoochSwitcher]: the state-and-exception monad of the engine and
      [_execute], the loop shared by both adapters.
    - [MoochForOpenAIClient], [MoochForLiteLLMCompletion]: the adapters.
    - [MoochSwitcherCall]: the switcher as a callable, which builds them.

    Conventions.  A Python [str] is a list of code points.  List objects
    (credential pools) live in a store addressed by locations, so that a
    pool passed to [_execute] is a reference to the caller's list and not a
    copy.  The call under retry ([call_func]) acts on a world of its own: it
    holds no reference to the pool it is retried over.  [print] appends a
    line to the captured standard output and cannot fail; [_execute_on] is
    the same engine over a standard output that can refuse a line, and
    agrees with [_execute] when [verbose] is off or every line is
    accepted. *)

From Stdlib Require Import ZArith NArith Ascii String DecimalString.
From stdpp Require Import base option list gmap.

Set Default Proof Using "Type".

(** ** Python values *)

Module Py.

(** [str]: a sequence of Unicode code points. *)
Definition pystr := list N.

(** A literal whose characters are all ASCII. *)
Definition lit (s : string) : pystr := N_of_ascii <$> list_ascii_of_string s.

(** [str(n)] for a non-negative [int]. *)
Definition str_of_nat (n : nat) : pystr :=
  lit (NilEmpty.string_of_uint (Nat.to_uint n)).

Definition loc := positive.

(** Values that can be elements of a pool: [None], [int], [str]. *)
Inductive scalar :=
| SNone
| SInt (z : Z)
| SStr (s : pystr).

(** A value: a scalar, a reference to a list object, or an object of
    some other type that is neither iterable nor subscriptable (a
    response object, say). *)
Inductive pyval :=
| VScalar (a : scalar)
| VList (l : loc)
| VObj (id : N).

(** Exceptions.  [RateLimitError] stands for every instance of
    [openai.RateLimitError]; [OtherError] for every class the switcher
    never names.  The payload identifies the exception object. *)
Inductive exn :=
| RateLimitError (e : pystr)
| TypeError
| IndexError
| ValueError (msg : pystr)
| OtherError (e : pystr).

(** [isinstance(e, openai.RateLimitError)] *)
Definition is_RateLimitError (e : exn) : bool :=
  match e with RateLimitError _ => true | _ => false end.

Inductive result (A : Type) :=
| Return (v : A)
| Raise (e : exn).
Arguments Return {A} v.
Arguments Raise {A} e.

(** Keyword arguments: a [dict] with [str] keys. *)
Abbreviation kwdict := (gmap pystr pyval).

End Py.
Export Py.

#[global] Instance scalar_eq_dec : EqDecision scalar.
Proof. solve_decision. Defined.
#[global] Instance pyval_eq_dec : EqDecision pyval.
Proof. solve_decision. Defined.
#[global] Instance exn_eq_dec : EqDecision exn.
Proof. solve_decision. Defined.

(** ** The engine *)

Module MoochSwitcher.

(** What one run of the engine can touch: the store of list objects, the
    world of the wrapped call, and the lines printed.  [calls] is a trace
    kept for the proofs: the arguments [call_func] was applied to, in
    order. *)
Record state (W : Type) := State {
  heap : gmap loc (list scalar);
  world : W;
  calls : list scalar;
  stdout : list pystr
}.
Arguments State {W} heap world calls stdout.
Arguments heap {W} s.
Arguments world {W} s.
Arguments calls {W} s.
Arguments stdout {W} s.

Definition M (W A : Type) : Type := state W -> result A * state W.

Definition ret {W A} (v : A) : M W A := fun st => (Return v, st).
Definition raise {W A} (e : exn) : M W A := fun st => (Raise e, st).
Definition bind {W A B} (c : M W A) (k : A -> M W B) : M W B :=
  fun st =>
    match c st with
    | (Return v, st') => k v st'
    | (Raise e, st') => (Raise e, st')
    end.

Notation "x <- c1 ;; c2" := (bind c1 (fun x => c2))
  (at level 100, c1 at next level, right associativity).
Notation "c1 ;; c2" := (bind c1 (fun _ => c2))
  (at level 100, right associativity).

(** [print(line)] *)
Definition print {W} (line : pystr) : M W unit :=
  fun st => (Return tt,
             State (heap st) (world st) (calls st) (stdout st ++ [line])).

(** [if verbose: print(line)] *)
Definition log {W} (verbose : bool) (line : pystr) : M W unit :=
  if verbose then print line else ret tt.

(** [call_func(api_key)], recording the argument. *)
Definition invoke {W} (call_func : scalar -> W -> result pyval * W)
    (api_key : scalar) : M W pyval :=
  fun st =>
    let '(r, w) := call_func api_key (world st) in
    (r, State (heap st) w (calls st ++ [api_key]) (stdout st)).

(** [[x]]: a new one-element list object. *)
Definition new_list {W} (xs : list scalar) : M W pyval :=
  fun st =>
    let l := fresh (dom (heap st)) in
    (Return (VList l),
     State (<[l := xs]> (heap st)) (world st) (calls st) (stdout st)).

(** [iter(v)] read off at once: the elements a [for] loop over [v] will
    visit.  A list yields its elements, a [str] its characters; anything
    else, a reference to no list object included, is not iterable.  The
    elements can be read at once because nothing writes to the list while
    the loop runs: the wrapped call has no access to the store. *)
Definition py_iter {W} (v : pyval) : M W (list scalar) :=
  fun st =>
    match v with
    | VList l =>
        match heap st !! l with
        | Some xs => (Return xs, st)
        | None => (Raise TypeError, st)
        end
    | VScalar (SStr s) => (Return ((fun c => SStr [c]) <$> s), st)
    | _ => (Raise TypeError, st)
    end.

(** [api_key[:10]] as the f-string formats it. *)
Definition masked (s : pystr) : pystr := take 10 s.

Definition slice10 {W} (api_key : scalar) : M W pystr :=
  match api_key with
  | SStr s => ret (masked s)
  | _ => raise TypeError
  end.

(** The four messages. U+2713 is the check mark, U+2717 the cross. *)
Definition msg_trying (i total : nat) (shown : pystr) : pystr :=
  lit "[Mooch] Trying API key " ++ str_of_nat i ++ lit "/"
    ++ str_of_nat total ++ lit ": " ++ shown ++ lit "...".
Definition msg_success (i : nat) : pystr :=
  lit "[Mooch] " ++ [10003%N] ++ lit " Success with API key " ++ str_of_nat i.
Definition msg_rate_limit (i : nat) : pystr :=
  lit "[Mooch] " ++ [10007%N] ++ lit " Rate limit hit with API key "
    ++ str_of_nat i ++ lit ", switching...".
Definition msg_all_failed (total : nat) : pystr :=
  lit "[Mooch] " ++ [10007%N] ++ lit " All " ++ str_of_nat total
    ++ lit " API keys failed".

Section Execute.
Context {W : Type}.
Variable call_func : scalar -> W -> result pyval * W.

(** The body of the [try] for the key at 0-based position [i]. *)
Definition attempt (verbose : bool) (total i : nat) (api_key : scalar)
    : M W pyval :=
  (if verbose then
     print [] ;;
     shown <- slice10 api_key ;;
     print (msg_trying (i + 1) total shown)
   else ret tt) ;;
  result <- invoke call_func api_key ;;
  log verbose (msg_success (i + 1)) ;;
  ret result.

(** After the loop: [raise last_error]; raising [None] is a
    [TypeError]. *)
Definition all_failed (verbose : bool) (total : nat)
    (last_error : option exn) : M W pyval :=
  log verbose (msg_all_failed total) ;;
  match last_error with
  | Some e => raise e
  | None => raise TypeError
  end.

(** [for i, api_key in enumerate(api_keys)], from position [i] on. *)
Fixpoint for_loop (verbose : bool) (total i : nat) (rest : list scalar)
    (last_error : option exn) (st : state W) : result pyval * state W :=
  match rest with
  | [] => all_failed verbose total last_error st
  | api_key :: rest' =>
      match attempt verbose total i api_key st with
      | (Return result, st1) => (Return result, st1)
      | (Raise e, st1) =>
          if is_RateLimitError e then
            let st2 := snd (log verbose (msg_rate_limit (i + 1)) st1) in
            for_loop verbose total (S i) rest' (Some e) st2
          else (Raise e, st1)
      end
  end.

(** [if isinstance(api_keys, str): api_keys = [api_keys]] *)
Definition normalize (api_keys : pyval) : M W pyval :=
  match api_keys with
  | VScalar (SStr s) => new_list [SStr s]
  | _ => ret api_keys
  end.

Definition _execute (api_keys : pyval) (verbose : bool) : M W pyval :=
  api_keys <- normalize api_keys ;;
  keys <- py_iter api_keys ;;
  for_loop verbose (length keys) 0 keys None.

End Execute.

(** *** A standard output that can refuse a line

    [print] encodes the line for [sys.stdout] before anything of it is
    written, and raises [UnicodeEncodeError] when the encoding has no
    code for one of its characters.  [accepts] says which lines the
    standard output of the run can encode.  Every [print] of [_execute]
    stands inside the [try], inside the handler or after the loop, so that
    an error from it leaves [_execute]: it is not a rate-limit error. *)

Definition UnicodeEncodeError : exn := OtherError (lit "UnicodeEncodeError").

Section ExecuteOn.
Context {W : Type}.
Variable accepts : pystr -> bool.
Variable call_func : scalar -> W -> result pyval * W.

(** [print(line)] *)
Definition print_on (line : pystr) : M W unit :=
  fun st =>
    if accepts line then print line st else (Raise UnicodeEncodeError, st).

(** [if verbose: print(line)] *)
Definition log_on (verbose : bool) (line : pystr) : M W unit :=
  if verbose then print_on line else ret tt.

(** The body of the [try]. *)
Definition attempt_on (verbose : bool) (total i : nat) (api_key : scalar)
    : M W pyval :=
  (if verbose then
     print_on [] ;;
     shown <- slice10 api_key ;;
     print_on (msg_trying (i + 1) total shown)
   else ret tt) ;;
  result <- invoke call_func api_key ;;
  log_on verbose (msg_success (i + 1)) ;;
  ret result.

(** After the loop. *)
Definition all_failed_on (verbose : bool) (total : nat)
    (last_error : option exn) : M W pyval :=
  log_on verbose (msg_all_failed total) ;;
  match last_error with
  | Some e => raise e
  | None => raise TypeError
  end.

(** The loop: an error raised by the [print] of the handler ends it. *)
Fixpoint for_loop_on (verbose : bool) (total i : nat) (rest : list scalar)
    (last_error : option exn) (st : state W) : result pyval * state W :=
  match rest with
  | [] => all_failed_on verbose total last_error st
  | api_key :: rest' =>
      match attempt_on verbose total i api_key st with
      | (Return result, st1) => (Return result, st1)
      | (Raise e, st1) =>
          if is_RateLimitError e then
            match log_on verbose (msg_rate_limit (i + 1)) st1 with
            | (Return _, st2) =>
                for_loop_on verbose total (S i) rest' (Some e) st2
            | (Raise e', st2) => (Raise e', st2)
            end
          else (Raise e, st1)
      end
  end.

Definition _execute_on (api_keys : pyval) (verbose : bool) : M W pyval :=
  api_keys <- normalize api_keys ;;
  keys <- py_iter api_keys ;;
  for_loop_on verbose (length keys) 0 keys None.

End ExecuteOn.

End MoochSwitcher.

(** ** Argument binding *)

(** A call that fills the parameters [params] positionally and also passes
    [**kwargs]: Python refuses it with a [TypeError] ("got multiple values
    for argument") when [kwargs] has one of those names as a key. *)
Definition clashes (params : list pystr) (kwargs : kwdict) : bool :=
  existsb (fun p => bool_decide (is_Some (kwargs !! p))) params.

(** ** The OpenAI client adapter *)

Module MoochForOpenAIClient.
Import MoochSwitcher.

Record client := Client {
  api_keys : pyval;
  verbose : bool;
  init_args : list pyval;
  init_kwargs : kwdict
}.

(** [v[0]] *)
Definition first_item {W} (v : pyval) : M W pyval :=
  fun st =>
    match v with
    | VList l =>
        match heap st !! l with
        | Some (x :: _) => (Return (VScalar x), st)
        | Some [] => (Raise IndexError, st)
        | None => (Raise TypeError, st)
        end
    | VScalar (SStr (c :: _)) => (Return (VScalar (SStr [c])), st)
    | VScalar (SStr []) => (Raise IndexError, st)
    | _ => (Raise TypeError, st)
    end.

Section Init.
Context {W : Type}.

(** [openai.OpenAI.__init__], the constructor of the base class: given the
    key and the caller's other arguments it returns or raises. *)
Variable OpenAI_init : pyval -> list pyval -> kwdict -> W -> result unit * W.

Definition super_init (api_key : pyval) (args : list pyval) (kwargs : kwdict)
    : M W unit :=
  fun st =>
    let '(r, w) := OpenAI_init api_key args kwargs (world st) in
    (r, State (heap st) w (calls st) (stdout st)).

(** [__init__] with parameters [self, api_keys, verbose, *args, **kwargs].  The argument
    [api_keys[0]] is evaluated before the call to the base constructor is
    made; a caller's own [api_key=] clashes with the one passed here. *)
Definition __init__ (api_keys : pyval) (verbose : bool) (args : list pyval)
    (kwargs : kwdict) : M W client :=
  api_key <- first_item api_keys ;;
  (if clashes [lit "api_key"] kwargs then raise TypeError else ret tt) ;;
  super_init api_key args kwargs ;;
  ret (Client api_keys verbose args kwargs).

End Init.

(** The world of the OpenAI calls: the clients constructed (key and
    constructor arguments) and the requests made (the client's
    construction and the request's own arguments), both in order, and the
    provider's state. *)
Record oworld (E : Type) := OWorld {
  constructions : list (pyval * list pyval * kwdict);
  requests : list ((pyval * list pyval * kwdict) * list pyval * kwdict);
  provider_state : E
}.
Arguments OWorld {E} constructions requests provider_state.
Arguments constructions {E} o.
Arguments requests {E} o.
Arguments provider_state {E} o.

Section Create.
Context {E : Type}.

(** [openai.OpenAI], the class called with [api_key=] and the caller's
    other arguments, and [chat.completions.create] of a client so
    constructed. *)
Variable OpenAI_new : pyval -> list pyval -> kwdict -> E -> result unit * E.
Variable chat_create :
  pyval * list pyval * kwdict -> list pyval -> kwdict -> E -> result pyval * E.

(** Constructing a client, recorded. *)
Definition construct (api_key : pyval) (args : list pyval) (kwargs : kwdict)
    (w : oworld E) : result unit * oworld E :=
  let '(r, e) := OpenAI_new api_key args kwargs (provider_state w) in
  (r, OWorld (constructions w ++ [(api_key, args, kwargs)]) (requests w) e).

(** [_call], with parameters [self, api_key, *args, **kwargs]: a temporary
    client is constructed with the key and the arguments kept by
    [__init__], and the request is made on it. *)
Definition _call (self : client) (api_key : scalar) (args : list pyval)
    (kwargs : kwdict) (w : oworld E) : result pyval * oworld E :=
  if clashes [lit "self"; lit "api_key"] kwargs then (Raise TypeError, w)
  else if clashes [lit "api_key"] (init_kwargs self) then (Raise TypeError, w)
  else
    let temp_client := (VScalar api_key, init_args self, init_kwargs self) in
    match construct (VScalar api_key) (init_args self) (init_kwargs self) w with
    | (Raise e, w1) => (Raise e, w1)
    | (Return _, w1) =>
        let '(r, e) := chat_create temp_client args kwargs (provider_state w1) in
        (r, OWorld (constructions w1)
                   (requests w1 ++ [(temp_client, args, kwargs)]) e)
    end.

(** [_create], with parameters [self, *args, **kwargs]; it is what
    [chat.completions.create] of the adapter is bound to. *)
Definition _create (self : client) (args : list pyval) (kwargs : kwdict)
    : M (oworld E) pyval :=
  fun st =>
    if clashes [lit "self"] kwargs then (Raise TypeError, st)
    else
      _execute (fun api_key => _call self api_key args kwargs)
               (api_keys self) (verbose self) st.

End Create.

End MoochForOpenAIClient.

(** ** The LiteLLM completion adapter *)

Module MoochForLiteLLMCompletion.
Import MoochSwitcher.

(** The world of the wrapped call: the store of [dict] objects holding
    keyword arguments, the calls [litellm.completion] received (positional
    and keyword arguments, in order), and whatever state the provider
    keeps. *)
Record lworld (E : Type) := LWorld {
  dicts : gmap loc kwdict;
  completion_calls : list (list pyval * kwdict);
  ext : E
}.
Arguments LWorld {E} dicts completion_calls ext.
Arguments dicts {E} l.
Arguments completion_calls {E} l.
Arguments ext {E} l.

Record wrapper := Wrapper {
  api_keys : pyval;
  verbose : bool
}.

(** [__init__(self, api_keys, verbose)] only stores its arguments. *)
Definition __init__ (api_keys : pyval) (verbose : bool) : wrapper :=
  Wrapper api_keys verbose.

Section Call.
Context {E : Type}.

(** [litellm.completion], applied to [*args, **kwargs] *)
Variable completion : list pyval -> kwdict -> E -> result pyval * E.

(** [self._call(api_key, *args, **kwargs)] where the caller's [kwargs] is
    the dict at [kwargs_ref].  Binding the call to
    the parameters [self, api_key, *args, **kwargs] of [_call] gives the callee a dict of
    its own; the assignment and the call to [litellm.completion] act on
    that one. *)
Definition _call (api_key : scalar) (args : list pyval) (kwargs_ref : loc)
    (w : lworld E) : result pyval * lworld E :=
  let passed := default ∅ (dicts w !! kwargs_ref) in
  if clashes [lit "self"; lit "api_key"] passed then (Raise TypeError, w)
  else
    let l := fresh (dom (dicts w)) in
    let kwargs := <[lit "api_key" := VScalar api_key]> passed in
    let '(r, e) := completion args kwargs (ext w) in
    (r, LWorld (<[l := kwargs]> (dicts w))
               (completion_calls w ++ [(args, kwargs)]) e).

(** [__call__], with parameters [self, *args, **kwargs], called with keyword arguments
    [passed].  Its own [kwargs] is a new dict, which every attempt's
    [lambda] unpacks again. *)
Definition __call__ (self : wrapper) (args : list pyval) (passed : kwdict)
    : M (lworld E) pyval :=
  fun st =>
    if clashes [lit "self"] passed then (Raise TypeError, st)
    else
      let w := world st in
      let kwargs_ref := fresh (dom (dicts w)) in
      let w1 := LWorld (<[kwargs_ref := passed]> (dicts w))
                       (completion_calls w) (ext w) in
      _execute (fun api_key => _call api_key args kwargs_ref)
               (api_keys self) (verbose self)
               (State (heap st) w1 (calls st) (stdout st)).

End Call.

End MoochForLiteLLMCompletion.

(** ** The switcher as a callable *)

(** [MoochSwitcher.__init__] and [MoochSwitcher.__call__], which build the
    adapters above. *)
Module MoochSwitcherCall.
Import MoochSwitcher.

(** What [target == openai.OpenAI] and [target == litellm.completion] tell
    apart; [shown] is [str(target)] of any other object. *)
Inductive target :=
| OpenAI_class
| litellm_completion
| other_target (shown : pystr).

Record switcher := Switcher { default_verbose : bool }.

Definition __init__ (verbose : bool) : switcher := Switcher verbose.

(** The two [lambda]s [__call__] returns, each with the [use_verbose] it
    closes over. *)
Inductive factory :=
| ForOpenAIClient (use_verbose : bool)
| ForLiteLLMCompletion (use_verbose : bool).

(** [__call__(self, target, verbose)], [verbose] being [None] or a
    [bool]. *)
Definition __call__ (self : switcher) (tgt : target) (verbose : option bool)
    : result factory :=
  let use_verbose :=
    match verbose with
    | Some v => v
    | None => default_verbose self
    end in
  match tgt with
  | OpenAI_class => Return (ForOpenAIClient use_verbose)
  | litellm_completion => Return (ForLiteLLMCompletion use_verbose)
  | other_target shown =>
      Raise (ValueError (lit "Unsupported target: " ++ shown))
  end.

(** The first [lambda], applied to [api_keys, *args, **kwargs]: the call
    [MoochForOpenAIClient(api_keys, use_verbose, *args, **kwargs)] fills
    [api_keys] and [verbose] positionally. *)
Definition build_client {W}
    (OpenAI_init : pyval -> list pyval -> kwdict -> W -> result unit * W)
    (use_verbose : bool) (api_keys : pyval) (args : list pyval)
    (kwargs : kwdict) : M W MoochForOpenAIClient.client :=
  if clashes [lit "self"; lit "api_keys"; lit "verbose"] kwargs
  then raise TypeError
  else MoochForOpenAIClient.__init__ OpenAI_init api_keys use_verbose args kwargs.

(** The second [lambda], applied to [api_keys]. *)
Definition build_completion (use_verbose : bool) (api_keys : pyval)
    : MoochForLiteLLMCompletion.wrapper :=
  MoochForLiteLLMCompletion.__init__ api_keys use_verbose.

(** [mooch = MoochSwitcher()] *)
Definition mooch : switcher := __init__ false.

End MoochSwitcherCall.

(** ** Vocabulary of the properties *)

Import MoochSwitcher.

(** The pool a value denotes once normalized: a [str] is the one-element
    pool of itself, a list object is its elements. *)
Definition pool_of {W} (st : state W) (api_keys : pyval)
    : option (list scalar) :=
  match api_keys with
  | VScalar (SStr s) => Some [SStr s]
  | VList l => heap st !! l
  | _ => None
  end.

(** Invoking [keys] one after the other from world [w], every invocation
    raises a [RateLimitError]: the world reached and the last error
    raised ([last] when [keys] is empty). *)
Fixpoint all_rate_limited {W} (call_func : scalar -> W -> result pyval * W)
    (keys : list scalar) (w : W) (last : option exn) : option (W * option exn) :=
  match keys with
  | [] => Some (w, last)
  | key :: keys' =>
      match call_func key w with
      | (Raise e, w') =>
          if is_RateLimitError e
          then all_rate_limited call_func keys' w' (Some e)
          else None
      | (Return _, _) => None
      end
  end.

(** What the loop printed while it went through rate-limited keys
    [keys], the first of them at 0-based position [i]. *)
Fixpoint retry_lines (total i : nat) (keys : list pystr) : list pystr :=
  match keys with
  | [] => []
  | key :: keys' =>
      [] :: msg_trying (i + 1) total (masked key) :: msg_rate_limit (i + 1)
        :: retry_lines total (S i) keys'
  end.

(** The lines printed when [verbose] is on. *)
Definition lines_if (verbose : bool) (ls : list pystr) : list pystr :=
  if verbose then ls else [].

(** How an attempt ended. *)
Inductive outcome := Succeeded | RateLimited | Fatal.

(** The outcomes of the attempts the loop makes over [keys] from [w]. *)
Fixpoint outcomes {W} (call_func : scalar -> W -> result pyval * W)
    (keys : list scalar) (w : W) : list outcome :=
  match keys with
  | [] => []
  | key :: keys' =>
      match call_func key w with
      | (Return _, _) => [Succeeded]
      | (Raise e, w') =>
          if is_RateLimitError e
          then RateLimited :: outcomes call_func keys' w'
          else [Fatal]
      end
  end.

(** The log as a function of what is displayed of each key ([shown]) and
    of how each attempt ended: the keys themselves are not an input. *)
Fixpoint render (total i : nat) (shown : list pystr) (outs : list outcome)
    : list pystr :=
  match shown with
  | [] => [msg_all_failed total]
  | s :: shown' =>
      [] :: msg_trying (i + 1) total s ::
        match outs with
        | Succeeded :: _ => [msg_success (i + 1)]
        | RateLimited :: outs' =>
            msg_rate_limit (i + 1) :: render total (S i) shown' outs'
        | _ => []
        end
  end.

(** Values [enumerate] refuses: [None], an [int], an object of another
    non-iterable type. *)
Definition not_iterable (v : pyval) : bool :=
  match v with
  | VScalar SNone | VScalar (SInt _) | VObj _ => true
  | _ => false
  end.

(** The world after [call_func] has been applied to [keys] one after the
    other. *)
Fixpoint thread {W} (call_func : scalar -> W -> result pyval * W)
    (keys : list scalar) (w : W) : W :=
  match keys with
  | [] => w
  | key :: keys' => thread call_func keys' (snd (call_func key w))
  end.

(** [isinstance(key, str)] *)
Definition is_str (key : scalar) : bool :=
  match key with SStr _ => true | _ => false end.

(** The temporary client of an attempt with [key]. *)
Definition temp_client_of (self : MoochForOpenAIClient.client) (key : scalar)
    : pyval * list pyval * kwdict :=
  (VScalar key, MoochForOpenAIClient.init_args self,
   MoochForOpenAIClient.init_kwargs self).

(** A request made on that client with the caller's arguments. *)
Definition request_of (self : MoochForOpenAIClient.client)
    (args : list pyval) (kwargs : kwdict) (key : scalar)
    : (pyval * list pyval * kwdict) * list pyval * kwdict :=
  (temp_client_of self key, args, kwargs).

(** What [litellm.completion] receives when [key] is put under [api_key]
    in the keyword arguments [passed]. *)
Definition injected (args : list pyval) (passed : kwdict) (key : scalar)
    : list pyval * kwdict :=
  (args, <[lit "api_key" := VScalar key]> passed).

(** ** A provider to run the code against *)

Module Demo.

Definition k1 : pystr := lit "sk-demo-0001-alpha".
Definition k2 : pystr := lit "sk-demo-0002-bravo".
Definition k3 : pystr := lit "sk-demo-0003-charlie".
Definition malformed : pystr := lit "sk-demo-malformed".
Definition short : pystr := lit "sk-abc".

Definition ok : pyval := VScalar (SStr (lit "ok")).

Definition text_of (key : scalar) : pystr :=
  match key with SStr s => s | _ => [] end.

(** A provider that has served [served] calls: it answers the third key,
    refuses the malformed one outright and rate-limits every other key,
    naming the key in the error. *)
Definition provider (key : scalar) (served : nat) : result pyval * nat :=
  if decide (key = SStr k3) then (Return ok, S served)
  else if decide (key = SStr malformed)
  then (Raise (OtherError (lit "400 bad request")), S served)
  else (Raise (RateLimitError (lit "429 " ++ text_of key)), S served).

(** A provider that answers whatever it is given. *)
Definition lenient (key : scalar) (served : nat) : result pyval * nat :=
  (Return ok, S served).

(** The caller's list is the object at location 1. *)
Definition pool : loc := 1%positive.

Definition fresh_run {W} (xs : list scalar) (w : W) : state W :=
  State {[pool := xs]} w [] [].

(** [openai.OpenAI.__init__] accepting every key. *)
Definition base_init (api_key : pyval) (args : list pyval) (kwargs : kwdict)
    (built : nat) : result unit * nat :=
  (Return tt, S built).

(** [litellm.completion] asking [provider] with the key it is given. *)
Definition completion (args : list pyval) (kwargs : kwdict) (served : nat)
    : result pyval * nat :=
  match kwargs !! lit "api_key" with
  | Some (VScalar key) => provider key served
  | _ => (Raise (OtherError (lit "401 no key")), S served)
  end.

Definition litellm_world : MoochForLiteLLMCompletion.lworld nat :=
  MoochForLiteLLMCompletion.LWorld ∅ [] 0.

Definition model_kw : kwdict := {[lit "model" := VScalar (SStr (lit "gpt"))]}.

(** [openai.OpenAI] accepting every key, and a client's
    [chat.completions.create] asking [provider] with the client's key. *)
Definition openai_new (api_key : pyval) (args : list pyval) (kwargs : kwdict)
    (served : nat) : result unit * nat :=
  (Return tt, served).

Definition chat_create (temp_client : pyval * list pyval * kwdict)
    (args : list pyval) (kwargs : kwdict) (served : nat)
    : result pyval * nat :=
  match temp_client with
  | (VScalar key, _, _) => provider key served
  | _ => (Raise (OtherError (lit "401 no key")), S served)
  end.

Definition openai_world : MoochForOpenAIClient.oworld nat :=
  MoochForOpenAIClient.OWorld [] [] 0.

Definition base_url_kw : kwdict :=
  {[lit "base_url" := VScalar (SStr (lit "https://api.example/v1"))]}.

(** A standard output encoding to ASCII: it has no code for the check
    mark and the cross of the messages. *)
Definition ascii_stdout (line : pystr) : bool :=
  forallb (fun c => (c <? 128)%N) line.

(** A standard output encoding to UTF-8, strict: it refuses the
    surrogates U+D800 to U+DFFF. *)
Definition utf8_stdout (line : pystr) : bool :=
  forallb (fun c => negb ((55296 <=? c)%N && (c <=? 57343)%N)) line.

(** A key whose first character is the lone surrogate U+D800. *)
Definition surrogate_key : pystr := 55296%N :: lit "k-demo-0004".

End Demo.

(** ** The loop, one attempt at a time *)

Section EngineProperties.
Context {W : Type}.
Variable call_func : scalar -> W -> result pyval * W.

(** An attempt with a [str] key: one invocation, and the lines around it. *)
Lemma attempt_str verbose total i s (st : state W) :
  attempt call_func verbose total i (SStr s) st =
  let '(r, w) := call_func (SStr s) (world st) in
  let st' ls := State (heap st) w (calls st ++ [SStr s])
                      (stdout st ++ lines_if verbose ls) in
  match r with
  | Return v =>
      (Return v,
       st' [[]; msg_trying (i + 1) total (masked s); msg_success (i + 1)])
  | Raise e => (Raise e, st' [[]; msg_trying (i + 1) total (masked s)])
  end.
Proof.
  unfold attempt, bind, invoke, log, print, slice10, ret.
  destruct verbose; simpl;
    destruct (call_func (SStr s) (world st)) as [[v|e] w]; simpl;
    rewrite <- ?app_assoc, ?app_nil_r; reflexivity.
Qed.

(** The loop steps over a rate-limited key. *)
Lemma for_loop_step_rate_limited verbose total i s rest last (st : state W) e w :
  call_func (SStr s) (world st) = (Raise e, w) ->
  is_RateLimitError e = true ->
  for_loop call_func verbose total i (SStr s :: rest) last st =
  for_loop call_func verbose total (S i) rest (Some e)
    (State (heap st) w (calls st ++ [SStr s])
       (stdout st ++ lines_if verbose (retry_lines total i [s]))).
Proof.
  intros Hcall He. simpl for_loop. rewrite attempt_str, Hcall. simpl.
  rewrite He. unfold log, print, ret.
  destruct verbose; simpl; rewrite <- ?app_assoc, ?app_nil_r; reflexivity.
Qed.

(** The loop steps over a whole rate-limited prefix. *)
Lemma for_loop_rate_limited verbose total pre : forall i rest last (st : state W) w1 last1,
  all_rate_limited call_func (SStr <$> pre) (world st) last = Some (w1, last1) ->
  for_loop call_func verbose total i ((SStr <$> pre) ++ rest) last st =
  for_loop call_func verbose total (i + length pre) rest last1
    (State (heap st) w1 (calls st ++ (SStr <$> pre))
       (stdout st ++ lines_if verbose (retry_lines total i pre))).
Proof.
  induction pre as [|s pre IH]; intros i rest last st w1 last1 Hall.
  - simpl in Hall. injection Hall as <- <-. simpl.
    rewrite Nat.add_0_r, !app_nil_r.
    destruct verbose; simpl; rewrite ?app_nil_r; destruct st; reflexivity.
  - simpl in Hall.
    destruct (call_func (SStr s) (world st)) as [[v|e] w] eqn:Hcall;
      [discriminate|].
    destruct (is_RateLimitError e) eqn:He; [|discriminate].
    change ((SStr <$> s :: pre) ++ rest) with (SStr s :: ((SStr <$> pre) ++ rest)).
    rewrite (for_loop_step_rate_limited _ _ _ _ _ _ _ _ _ Hcall He).
    erewrite IH by (simpl; exact Hall).
    replace (i + length (s :: pre)) with (S i + length pre) by (simpl; lia).
    f_equal. simpl. f_equal.
    + rewrite <- app_assoc. reflexivity.
    + destruct verbose; simpl; rewrite <- ?app_assoc, ?app_nil_r; reflexivity.
Qed.

(** Normalization touches nothing but the store of lists. *)
Lemma normalize_frame api_keys (st : state W) :
  world (snd (normalize api_keys st)) = world st /\
  calls (snd (normalize api_keys st)) = calls st /\
  stdout (snd (normalize api_keys st)) = stdout st.
Proof. destruct api_keys as [[| |s]|l|id]; simpl; auto. Qed.

(** On a pool, [_execute] is the loop over its keys. *)
Lemma execute_pool api_keys verbose keys (st : state W) :
  pool_of st api_keys = Some keys ->
  _execute call_func api_keys verbose st =
  for_loop call_func verbose (length keys) 0 keys None
    (snd (normalize api_keys st)).
Proof.
  intros Hpool. unfold _execute, bind.
  destruct api_keys as [[| |s]|l|id]; simpl in Hpool; try discriminate.
  - injection Hpool as <-. unfold normalize, new_list, py_iter. simpl.
    rewrite lookup_insert_eq. reflexivity.
  - unfold normalize, ret, py_iter. simpl. rewrite Hpool. reflexivity.
Qed.

(** ... and, past [k] rate-limited keys, the loop from key [k] on. *)
Lemma execute_past_prefix api_keys verbose (st : state W) ks k key w1 last :
  pool_of st api_keys = Some (SStr <$> ks) ->
  ks !! k = Some key ->
  all_rate_limited call_func (SStr <$> take k ks) (world st) None
    = Some (w1, last) ->
  _execute call_func api_keys verbose st =
  for_loop call_func verbose (length ks) k
    (SStr key :: (SStr <$> drop (S k) ks)) last
    (State (heap (snd (normalize api_keys st))) w1
       (calls st ++ (SStr <$> take k ks))
       (stdout st ++ lines_if verbose (retry_lines (length ks) 0 (take k ks)))).
Proof.
  intros Hpool Hk Hall.
  erewrite execute_pool by exact Hpool. rewrite length_fmap.
  destruct (normalize_frame api_keys st) as (Hw & Hc & Ho).
  rewrite <- (take_drop_middle ks k key Hk) at 2.
  rewrite fmap_app, fmap_cons.
  erewrite for_loop_rate_limited by (rewrite Hw; exact Hall).
  rewrite Hc, Ho, length_take_le by (apply lookup_lt_Some in Hk; lia).
  reflexivity.
Qed.

(** ** Fallback, exhaustion, short-circuit *)

(** C1 (sequential fallback, first success wins).  In a pool of
    credentials [ks], if the invocations for the first [k] credentials
    each raise a rate-limit error and the invocation for the credential
    at position [k] (the [k+1]-th) returns [v], then [_execute] returns
    [v]; the invocations it made are exactly those for the first [k+1]
    credentials, in pool order, whatever the credentials after them would
    have done.  With [k = 0]: a first credential that succeeds is the
    only one invoked. *)
Theorem sequential_fallback api_keys verbose (st : state W) ks k key w1 last v w2 :
  pool_of st api_keys = Some (SStr <$> ks) ->
  ks !! k = Some key ->
  all_rate_limited call_func (SStr <$> take k ks) (world st) None
    = Some (w1, last) ->
  call_func (SStr key) w1 = (Return v, w2) ->
  exists st',
    _execute call_func api_keys verbose st = (Return v, st') /\
    calls st' = calls st ++ (SStr <$> take (k + 1) ks) /\
    length (take (k + 1) ks) = k + 1 /\
    world st' = w2.
Proof.
  intros Hpool Hk Hall Hcall.
  rewrite (execute_past_prefix api_keys verbose st _ _ _ _ _ Hpool Hk Hall).
  simpl for_loop. rewrite attempt_str. simpl. rewrite Hcall.
  eexists; split; [reflexivity|]. simpl.
  rewrite Nat.add_1_r, (take_S_r _ _ _ Hk), fmap_app, <- app_assoc.
  repeat split.
  rewrite length_app, length_take_le by (apply lookup_lt_Some in Hk; lia).
  simpl. lia.
Qed.

(** C2 (exhaustion propagates the last error).  In a pool of [N >= 1]
    credentials, [pre] followed by [key], if every invocation raises a
    rate-limit error, the last of them being [e], then [_execute] makes
    exactly the [N] invocations, in pool order, and raises [e] itself. *)
Theorem exhaustion_propagates_last_error api_keys verbose (st : state W)
    pre key w1 last e w2 :
  pool_of st api_keys = Some (SStr <$> (pre ++ [key])) ->
  all_rate_limited call_func (SStr <$> pre) (world st) None = Some (w1, last) ->
  call_func (SStr key) w1 = (Raise e, w2) ->
  is_RateLimitError e = true ->
  exists st',
    _execute call_func api_keys verbose st = (Raise e, st') /\
    calls st' = calls st ++ (SStr <$> (pre ++ [key])) /\
    length (calls st') = length (calls st) + length (pre ++ [key]) /\
    world st' = w2.
Proof.
  intros Hpool Hall Hcall He.
  assert (Hk : (pre ++ [key]) !! length pre = Some key)
    by apply list_lookup_middle, eq_refl.
  assert (Htake : take (length pre) (pre ++ [key]) = pre)
    by apply take_app_length.
  rewrite <- Htake in Hall at 1.
  rewrite (execute_past_prefix api_keys verbose st _ _ _ _ _ Hpool Hk Hall).
  rewrite (drop_ge (pre ++ [key]) (S (length pre)))
    by (rewrite length_app; simpl; lia).
  rewrite Htake, fmap_nil.
  erewrite for_loop_step_rate_limited by (simpl; eassumption).
  simpl. unfold all_failed, bind, log, raise.
  destruct verbose; simpl;
    (eexists; split; [reflexivity|]); simpl;
    rewrite fmap_app, <- ?app_assoc; repeat split;
    rewrite !length_app, length_fmap; simpl; lia.
Qed.

(** C3 (fatal short-circuit).  In a pool of credentials [ks], if the
    invocations for the first [k] credentials each raise a rate-limit
    error and the invocation for the credential at position [k] (the
    [j]-th, [j = k+1]) raises an error [e] that is not a rate-limit error,
    then [_execute] raises [e]; the invocations it made are exactly those
    for the first [j] credentials: no credential after it is tried, also
    when [j < N]. *)
Theorem fatal_short_circuit api_keys verbose (st : state W) ks k key w1 last e w2 :
  pool_of st api_keys = Some (SStr <$> ks) ->
  ks !! k = Some key ->
  all_rate_limited call_func (SStr <$> take k ks) (world st) None
    = Some (w1, last) ->
  call_func (SStr key) w1 = (Raise e, w2) ->
  is_RateLimitError e = false ->
  exists st',
    _execute call_func api_keys verbose st = (Raise e, st') /\
    calls st' = calls st ++ (SStr <$> take (k + 1) ks) /\
    length (take (k + 1) ks) = k + 1 /\
    world st' = w2.
Proof.
  intros Hpool Hk Hall Hcall He.
  rewrite (execute_past_prefix api_keys verbose st _ _ _ _ _ Hpool Hk Hall).
  simpl for_loop. rewrite attempt_str. simpl. rewrite Hcall, He.
  eexists; split; [reflexivity|]. simpl.
  rewrite Nat.add_1_r, (take_S_r _ _ _ Hk), fmap_app, <- app_assoc.
  repeat split.
  rewrite length_app, length_take_le by (apply lookup_lt_Some in Hk; lia).
  simpl. lia.
Qed.

(** ** Input that is not a pool *)

(** C5, as the code has it.  A value that cannot be iterated ([None], an
    [int], an object of another non-iterable type) makes [_execute] raise
    a [TypeError] at once: nothing is invoked, nothing is printed and the
    state is the one it started from. *)
Theorem non_iterable_rejected api_keys verbose (st : state W) :
  not_iterable api_keys = true ->
  _execute call_func api_keys verbose st = (Raise TypeError, st).
Proof.
  destruct api_keys as [[| |s]|l|id]; simpl; intros Hni;
    try discriminate; reflexivity.
Qed.

(** ** A single credential and the list of it *)

(** C6 (normalization of a single credential).  The credential [k] and
    the one-element list [[k]] denote the same pool, of length 1, and
    [_execute] behaves the same on both: same result (value returned or
    error raised), same invocations, same final world, same output.  Both
    are one direct invocation for [k], whose outcome is passed on. *)
Theorem single_credential_normalization k verbose (st : state W) l :
  heap st !! l = Some [SStr k] ->
  let single := _execute call_func (VScalar (SStr k)) verbose st in
  let listed := _execute call_func (VList l) verbose st in
  pool_of st (VScalar (SStr k)) = pool_of st (VList l) /\
  pool_of st (VList l) = Some [SStr k] /\
  fst single = fst listed /\
  calls (snd single) = calls (snd listed) /\
  world (snd single) = world (snd listed) /\
  stdout (snd single) = stdout (snd listed) /\
  fst listed = fst (call_func (SStr k) (world st)) /\
  calls (snd listed) = calls st ++ [SStr k].
Proof.
  intros Hl single listed. subst single listed.
  assert (Hs : pool_of st (VScalar (SStr k)) = Some [SStr k]) by reflexivity.
  assert (Hv : pool_of st (VList l) = Some [SStr k]) by exact Hl.
  rewrite (execute_pool (VScalar (SStr k)) verbose _ st Hs).
  rewrite (execute_pool (VList l) verbose _ st Hv).
  rewrite Hs, Hv. simpl for_loop. rewrite !attempt_str. simpl.
  destruct (call_func (SStr k) (world st)) as [[v|e] w]; simpl.
  - repeat split.
  - destruct (is_RateLimitError e); simpl.
    + unfold all_failed, bind, log, print, ret, raise.
      destruct verbose; simpl; repeat split.
    + repeat split.
Qed.

(** ** The observer *)

Lemma for_loop_observer total ks : forall i last (st_on st_off : state W),
  heap st_on = heap st_off -> world st_on = world st_off ->
  calls st_on = calls st_off ->
  let on := for_loop call_func true total i (SStr <$> ks) last st_on in
  let off := for_loop call_func false total i (SStr <$> ks) last st_off in
  fst on = fst off /\ heap (snd on) = heap (snd off) /\
  world (snd on) = world (snd off) /\ calls (snd on) = calls (snd off) /\
  stdout (snd off) = stdout st_off.
Proof.
  induction ks as [|s ks IH]; intros i last st_on st_off Hh Hw Hc; cbv zeta.
  - simpl. unfold all_failed, bind, log, print, ret, raise.
    destruct last; simpl; auto.
  - rewrite fmap_cons.
    destruct (call_func (SStr s) (world st_off)) as [[v|e] w] eqn:Hoff.
    + simpl for_loop. rewrite !attempt_str, Hw, Hoff. simpl.
      rewrite Hh, Hc, app_nil_r. auto.
    + assert (Hon : call_func (SStr s) (world st_on) = (Raise e, w))
        by (rewrite Hw; exact Hoff).
      destruct (is_RateLimitError e) eqn:He.
      * rewrite (for_loop_step_rate_limited true total i s _ last st_on e w Hon He).
        rewrite (for_loop_step_rate_limited false total i s _ last st_off e w Hoff He).
        edestruct (IH (S i) (Some e)) as (Hr & Hh' & Hw' & Hc' & Ho');
          [| | | repeat split; [exact Hr | exact Hh' | exact Hw' | exact Hc'
                               | rewrite Ho'; simpl; apply app_nil_r ] ];
          simpl; congruence.
      * simpl for_loop. rewrite !attempt_str, Hw, Hoff. simpl. rewrite He.
        simpl. rewrite Hh, Hc, app_nil_r. auto.
Qed.

(** The observer while every [print] succeeds.  On every pool of
    credentials and for every behaviour of the wrapped call, [_execute]
    with [verbose] on and with [verbose] off ends the same way: same
    value returned or same error raised, same invocations in the same
    order, same final world and store.  With [verbose] off it prints
    nothing.  This is what C7 asks, for a standard output that accepts
    every line; over one that can refuse a line it fails, see
    [_execute_on]. *)
Theorem observer_no_control_flow api_keys ks (st : state W) :
  pool_of st api_keys = Some (SStr <$> ks) ->
  let on := _execute call_func api_keys true st in
  let off := _execute call_func api_keys false st in
  fst on = fst off /\
  calls (snd on) = calls (snd off) /\
  world (snd on) = world (snd off) /\
  heap (snd on) = heap (snd off) /\
  stdout (snd off) = stdout st.
Proof.
  intros Hpool on off. subst on off.
  rewrite (execute_pool api_keys true _ st Hpool).
  rewrite (execute_pool api_keys false _ st Hpool).
  destruct (normalize_frame api_keys st) as (Hw & Hc & Ho).
  destruct (for_loop_observer (length (SStr <$> ks)) ks 0 None
              (snd (normalize api_keys st)) (snd (normalize api_keys st))
              eq_refl eq_refl eq_refl) as (Hr & Hh' & Hw' & Hc' & Ho').
  repeat split; try assumption. rewrite Ho'. exact Ho.
Qed.

(** ** What the log displays *)

Lemma masked_long key : 10 < length key ->
  length (masked key) = 10 /\ masked key <> key.
Proof.
  intros Hlen. unfold masked.
  assert (Hl : length (take 10 key) = 10) by (rewrite length_take; lia).
  split; [exact Hl|]. intros Heq. rewrite Heq in Hl. lia.
Qed.

Lemma masked_short key : length key <= 10 -> masked key = key.
Proof. intros Hlen. unfold masked. apply take_ge. lia. Qed.

Lemma for_loop_log total ks : forall i last (st : state W),
  stdout (snd (for_loop call_func true total i (SStr <$> ks) last st)) =
  stdout st ++ render total i (masked <$> ks)
                 (outcomes call_func (SStr <$> ks) (world st)).
Proof.
  induction ks as [|s ks IH]; intros i last st.
  - simpl. unfold all_failed, bind, log, print, ret, raise.
    destruct last; reflexivity.
  - rewrite !fmap_cons. cbn [outcomes render].
    destruct (call_func (SStr s) (world st)) as [[v|e] w] eqn:Hcall.
    + simpl for_loop. rewrite attempt_str, Hcall. reflexivity.
    + destruct (is_RateLimitError e) eqn:He.
      * rewrite (for_loop_step_rate_limited true total i s _ last st e w Hcall He).
        rewrite IH. simpl. rewrite <- app_assoc. reflexivity.
      * simpl for_loop. rewrite attempt_str, Hcall. simpl. rewrite He.
        reflexivity.
Qed.

(** C8, as the code has it.  With [verbose] on, what [_execute] prints is
    a function of the first ten characters of each credential and of how
    each attempt ended: nothing else of a credential reaches the output.
    A credential longer than ten characters is therefore displayed as its
    ten-character prefix and never in full; one of at most ten characters
    is displayed whole. *)
Theorem log_displays_ten_character_prefix api_keys ks (st : state W) :
  pool_of st api_keys = Some (SStr <$> ks) ->
  stdout (snd (_execute call_func api_keys true st)) =
    stdout st ++ render (length ks) 0 (masked <$> ks)
                   (outcomes call_func (SStr <$> ks) (world st)) /\
  forall key, key ∈ ks ->
    masked key = take 10 key /\
    (10 < length key -> length (masked key) = 10 /\ masked key <> key) /\
    (length key <= 10 -> masked key = key).
Proof.
  intros Hpool. split.
  - rewrite (execute_pool api_keys true _ st Hpool), for_loop_log.
    destruct (normalize_frame api_keys st) as (Hw & Hc & Ho).
    rewrite Hw, Ho, length_fmap. reflexivity.
  - intros key _. split; [reflexivity|].
    split; [apply masked_long | apply masked_short].
Qed.

(** ** The caller's pool is left alone *)

Lemma attempt_heap verbose total i key (st : state W) :
  heap (snd (attempt call_func verbose total i key st)) = heap st.
Proof.
  unfold attempt, bind, invoke, log, print, slice10, ret, raise.
  destruct verbose, key; simpl; try reflexivity;
    destruct (call_func _ (world st)) as [[v|e] w]; reflexivity.
Qed.

Lemma for_loop_heap verbose total keys : forall i last (st : state W),
  heap (snd (for_loop call_func verbose total i keys last st)) = heap st.
Proof.
  induction keys as [|key keys IH]; intros i last st; simpl.
  - unfold all_failed, bind, log, print, ret, raise.
    destruct verbose, last; reflexivity.
  - pose proof (attempt_heap verbose total i key st) as Hatt.
    destruct (attempt call_func verbose total i key st) as [[v|e] st1];
      simpl in *; [exact Hatt|].
    destruct (is_RateLimitError e); [|exact Hatt].
    rewrite IH. destruct verbose; exact Hatt.
Qed.

(** C9 (the pool is never mutated).  Running [_execute] on the caller's
    list leaves the store of list objects exactly as it was, whether a
    value is returned or an error raised: the list keeps its length, its
    elements and their order.  On any argument, every list object that
    existed before the run is unchanged after it (the only write is the
    new one-element list made for a [str] argument). *)
Theorem pool_never_mutated verbose (st : state W) :
  (forall l, heap (snd (_execute call_func (VList l) verbose st)) = heap st) /\
  (forall api_keys,
     heap st ⊆ heap (snd (_execute call_func api_keys verbose st))).
Proof.
  split.
  - intros l. unfold _execute, bind, normalize, ret, py_iter. simpl.
    destruct (heap st !! l); [apply for_loop_heap | reflexivity].
  - intros api_keys. unfold _execute, bind.
    destruct api_keys as [[| |s]|l|id]; simpl; try reflexivity.
    + rewrite lookup_insert_eq, for_loop_heap. simpl.
      apply insert_subseteq, not_elem_of_dom, is_fresh.
    + destruct (heap st !! l); [rewrite for_loop_heap|]; reflexivity.
Qed.

End EngineProperties.

(** ** The adapters *)

Lemma clashes_absent p kwargs :
  kwargs !! p = None -> clashes [p] kwargs = false.
Proof.
  intros Hp. unfold clashes. simpl. rewrite Hp, orb_false_r.
  apply bool_decide_eq_false. intros [x Hx]. discriminate.
Qed.

Lemma clashes_present p ps kwargs v :
  kwargs !! p = Some v -> p ∈ ps -> clashes ps kwargs = true.
Proof.
  intros Hp Hin. unfold clashes. apply existsb_exists. exists p. split.
  - apply list_elem_of_In, Hin.
  - apply bool_decide_eq_true. rewrite Hp. eexists; reflexivity.
Qed.

Section OpenAIClientProperties.
Context {W : Type}.
Variable OpenAI_init : pyval -> list pyval -> kwdict -> W -> result unit * W.

(** C4, as the code has it.  Constructing the OpenAI client from the empty
    list fails at construction time with the [IndexError] of
    [api_keys[0]], before the base constructor is called and before
    anything is invoked or printed: the state is untouched. *)
Theorem empty_list_raises_IndexError l verbose args kwargs (st : state W) :
  heap st !! l = Some [] ->
  MoochForOpenAIClient.__init__ OpenAI_init (VList l) verbose args kwargs st
  = (Raise IndexError, st).
Proof.
  intros Hl. unfold MoochForOpenAIClient.__init__, bind,
    MoochForOpenAIClient.first_item.
  rewrite Hl. reflexivity.
Qed.

End OpenAIClientProperties.

Section LiteLLMProperties.
Import MoochForLiteLLMCompletion.
Context {E : Type}.
Variable completion : list pyval -> kwdict -> E -> result pyval * E.

(** C10 on a call that passes [api_key=] itself.  The keyword collides
    with the parameter [api_key] of [_call], which the adapter fills
    positionally: the first attempt raises a [TypeError], which is not a
    rate-limit error, so [__call__] raises it; [litellm.completion] is
    never called, with the pool's credential or otherwise. *)
Theorem caller_api_key_collides self args passed v key ks
    (st : state (lworld E)) :
  passed !! lit "api_key" = Some v ->
  passed !! lit "self" = None ->
  pool_of st (api_keys self) = Some (SStr <$> key :: ks) ->
  exists st',
    __call__ completion self args passed st = (Raise TypeError, st') /\
    calls st' = calls st ++ [SStr key] /\
    completion_calls (world st') = completion_calls (world st).
Proof.
  intros Hkey Hself Hpool. unfold __call__.
  rewrite (clashes_absent _ _ Hself).
  set (w1 := LWorld _ _ _). set (st1 := State _ _ _ _).
  assert (Hpool1 : pool_of st1 (api_keys self) = Some (SStr <$> key :: ks))
    by exact Hpool.
  rewrite (execute_pool _ (api_keys self) (verbose self) _ st1 Hpool1).
  rewrite fmap_cons. simpl for_loop. rewrite attempt_str.
  destruct (normalize_frame (W:=lworld E) (api_keys self) st1) as (Hw & Hc & Ho).
  rewrite Hw, Hc. simpl world. unfold _call at 1.
  assert (Hd : dicts w1 !! fresh (dom (dicts (world st))) = Some passed)
    by apply lookup_insert_eq.
  rewrite Hd. simpl default.
  rewrite (clashes_present (lit "api_key") _ passed v Hkey)
    by (apply list_elem_of_further, list_elem_of_here).
  simpl. eexists; split; [reflexivity|]. split; reflexivity.
Qed.

(** When the caller passes no [api_key=], each attempt hands
    [litellm.completion] the caller's arguments with [api_key] set to the
    credential of that attempt, and no dict that existed before the call
    is written to. *)
Lemma call_injects key args passed ref (w : lworld E) :
  dicts w !! ref = Some passed ->
  clashes [lit "self"; lit "api_key"] passed = false ->
  exists r w',
    _call completion key args ref w = (r, w') /\
    completion_calls w' = completion_calls w ++ [injected args passed key] /\
    dicts w ⊆ dicts w' /\ dicts w' !! ref = Some passed.
Proof.
  intros Hd Hc. unfold _call. rewrite Hd. simpl default. rewrite Hc.
  destruct (completion args _ (ext w)) as [r e].
  assert (Hfresh : dicts w !! fresh (dom (dicts w)) = None)
    by apply not_elem_of_dom, is_fresh.
  exists r. eexists. split; [reflexivity|]. simpl. repeat split.
  - apply insert_subseteq, Hfresh.
  - rewrite lookup_insert_ne; [exact Hd|]. intros Heq.
    rewrite Heq in Hfresh. rewrite Hfresh in Hd. discriminate.
Qed.

Lemma for_loop_injects verbose total args passed ref ks :
  clashes [lit "self"; lit "api_key"] passed = false ->
  forall i last (st : state (lworld E)),
  dicts (world st) !! ref = Some passed ->
  let st' := snd (for_loop (fun key => _call completion key args ref)
                    verbose total i (SStr <$> ks) last st) in
  exists tried,
    calls st' = calls st ++ tried /\
    completion_calls (world st')
      = completion_calls (world st) ++ (injected args passed <$> tried) /\
    dicts (world st) ⊆ dicts (world st').
Proof.
  intros Hc. induction ks as [|s ks IH]; intros i last st Hd; cbv zeta.
  - exists []. simpl. unfold all_failed, bind, log, print, ret, raise.
    destruct verbose, last; simpl; rewrite !app_nil_r; auto.
  - rewrite fmap_cons.
    destruct (call_injects (SStr s) args passed ref (world st) Hd Hc)
      as (r & w' & Hcall & Hcc & Hsub & Hd').
    destruct r as [v|e].
    + exists [SStr s]. simpl for_loop. rewrite attempt_str, Hcall.
      simpl. auto.
    + destruct (is_RateLimitError e) eqn:He.
      * rewrite (for_loop_step_rate_limited _ verbose total i s _ last st e w'
                   Hcall He).
        edestruct (IH (S i) (Some e)) as (tried & Hcalls & Hcomp & Hsub');
          [|exists (SStr s :: tried); repeat split;
            [rewrite Hcalls|rewrite Hcomp|etransitivity; [exact Hsub|exact Hsub']]];
          simpl; [exact Hd'| |].
        -- rewrite <- app_assoc. reflexivity.
        -- rewrite Hcc, <- app_assoc. reflexivity.
      * exists [SStr s]. simpl for_loop. rewrite attempt_str, Hcall.
        simpl. rewrite He. simpl. auto.
Qed.

(** X7.  When the caller passes neither [api_key=] nor [self=], every
    attempt of the wrapper calls [litellm.completion] with the caller's
    positional arguments and the caller's keywords plus [api_key] set to
    the key of that attempt; the dicts that existed before the call are
    left as they were. *)
Lemma completion_receives_pool_key self args passed ks
    (st : state (lworld E)) :
  passed !! lit "api_key" = None ->
  passed !! lit "self" = None ->
  pool_of st (api_keys self) = Some (SStr <$> ks) ->
  let st' := snd (__call__ completion self args passed st) in
  exists tried,
    calls st' = calls st ++ tried /\
    completion_calls (world st')
      = completion_calls (world st) ++ (injected args passed <$> tried) /\
    dicts (world st) ⊆ dicts (world st').
Proof.
  intros Hkey Hself Hpool. cbv zeta. unfold __call__.
  rewrite (clashes_absent _ _ Hself).
  set (ref := fresh (dom (dicts (world st)))).
  set (st1 := State _ _ _ _).
  assert (Hpool1 : pool_of st1 (api_keys self) = Some (SStr <$> ks))
    by exact Hpool.
  assert (Hfresh : dicts (world st) !! ref = None)
    by apply not_elem_of_dom, is_fresh.
  assert (Hc : clashes [lit "self"; lit "api_key"] passed = false).
  { unfold clashes. simpl. rewrite Hkey, Hself.
    rewrite bool_decide_eq_false_2; [reflexivity|].
    intros [x Hx]. discriminate. }
  rewrite (execute_pool _ (api_keys self) (verbose self) _ st1 Hpool1).
  destruct (normalize_frame (W:=lworld E) (api_keys self) st1) as (Hw & Hcl & Ho).
  edestruct (for_loop_injects (verbose self) (length (SStr <$> ks)) args
               passed ref ks Hc 0 None (snd (normalize (api_keys self) st1)))
    as (tried & Hcalls & Hcomp & Hsub).
  { rewrite Hw. apply lookup_insert_eq. }
  exists tried. rewrite Hcalls, Hcomp, Hcl, Hw. repeat split.
  etransitivity; [|exact Hsub]. rewrite Hw.
  apply insert_subseteq, Hfresh.
Qed.

End LiteLLMProperties.

(** ** The theorems at work *)

(** Three keys, the first two rate-limited: the third one's answer comes
    back after three invocations. *)
Lemma sequential_fallback_witness :
  let ks := [Demo.k1; Demo.k2; Demo.k3] in
  let st := Demo.fresh_run (SStr <$> ks) 0 in
  exists st',
    _execute Demo.provider (VList Demo.pool) true st = (Return Demo.ok, st') /\
    calls st' = calls st ++ (SStr <$> take (2 + 1) ks) /\
    length (take (2 + 1) ks) = 2 + 1 /\
    world st' = 3.
Proof.
  cbv zeta.
  apply (sequential_fallback Demo.provider (VList Demo.pool) true
           (Demo.fresh_run (SStr <$> [Demo.k1; Demo.k2; Demo.k3]) 0)
           [Demo.k1; Demo.k2; Demo.k3] 2 Demo.k3 2
           (Some (RateLimitError (lit "429 " ++ Demo.k2))) Demo.ok 3);
    vm_compute; reflexivity.
Defined.

(** Two keys, both rate-limited: the second one's error is the one
    raised. *)
Lemma exhaustion_propagates_last_error_witness :
  let st := Demo.fresh_run (SStr <$> [Demo.k1] ++ [Demo.k2]) 0 in
  exists st',
    _execute Demo.provider (VList Demo.pool) false st
      = (Raise (RateLimitError (lit "429 " ++ Demo.k2)), st') /\
    calls st' = calls st ++ (SStr <$> [Demo.k1] ++ [Demo.k2]) /\
    length (calls st') = length (calls st) + length ([Demo.k1] ++ [Demo.k2]) /\
    world st' = 2.
Proof.
  cbv zeta.
  apply (exhaustion_propagates_last_error Demo.provider (VList Demo.pool) false
           (Demo.fresh_run (SStr <$> [Demo.k1] ++ [Demo.k2]) 0)
           [Demo.k1] Demo.k2 1
           (Some (RateLimitError (lit "429 " ++ Demo.k1)))
           (RateLimitError (lit "429 " ++ Demo.k2)) 2);
    vm_compute; reflexivity.
Defined.

(** A malformed second key ends the run: the third key is never tried. *)
Lemma fatal_short_circuit_witness :
  let ks := [Demo.k1; Demo.malformed; Demo.k3] in
  let st := Demo.fresh_run (SStr <$> ks) 0 in
  exists st',
    _execute Demo.provider (VList Demo.pool) true st
      = (Raise (OtherError (lit "400 bad request")), st') /\
    calls st' = calls st ++ (SStr <$> take (1 + 1) ks) /\
    length (take (1 + 1) ks) = 1 + 1 /\
    world st' = 2.
Proof.
  cbv zeta.
  apply (fatal_short_circuit Demo.provider (VList Demo.pool) true
           (Demo.fresh_run (SStr <$> [Demo.k1; Demo.malformed; Demo.k3]) 0)
           [Demo.k1; Demo.malformed; Demo.k3] 1 Demo.malformed 1
           (Some (RateLimitError (lit "429 " ++ Demo.k1)))
           (OtherError (lit "400 bad request")) 2);
    vm_compute; reflexivity.
Defined.

(** C4 does not hold of the code.  On the empty list, the OpenAI client's
    constructor raises an [IndexError]; the LiteLLM wrapper is built
    without complaint, and calling it makes no attempt at all and raises
    the [TypeError] of [raise None]. *)
Lemma empty_pool_not_rejected_as_such :
  let st := Demo.fresh_run [] 0 in
  let lst := Demo.fresh_run [] Demo.litellm_world in
  MoochForOpenAIClient.__init__ Demo.base_init (VList Demo.pool) false [] ∅ st
    = (Raise IndexError, st) /\
  MoochForLiteLLMCompletion.__init__ (VList Demo.pool) false
    = MoochForLiteLLMCompletion.Wrapper (VList Demo.pool) false /\
  exists lst',
    MoochForLiteLLMCompletion.__call__ Demo.completion
      (MoochForLiteLLMCompletion.__init__ (VList Demo.pool) false)
      [] Demo.model_kw lst = (Raise TypeError, lst') /\
    calls lst' = [] /\
    MoochForLiteLLMCompletion.completion_calls (world lst') = [].
Proof.
  cbv zeta. split; [reflexivity|]. split; [reflexivity|].
  eexists. split; [reflexivity|]. split; reflexivity.
Qed.

Lemma empty_list_raises_IndexError_witness :
  let st := Demo.fresh_run [] 0 in
  heap st !! Demo.pool = Some [] /\
  MoochForOpenAIClient.__init__ Demo.base_init (VList Demo.pool) true [] ∅ st
    = (Raise IndexError, st).
Proof.
  cbv zeta. split; [reflexivity|].
  apply (empty_list_raises_IndexError Demo.base_init Demo.pool true [] ∅
           (Demo.fresh_run [] 0)).
  reflexivity.
Defined.

(** C5 does not hold of the code.  A list holding the integer 123 is
    neither a credential nor a sequence of credentials, yet [_execute]
    raises nothing: it hands 123 to the wrapped call and returns its
    answer. *)
Lemma list_of_non_credentials_accepted :
  let st := Demo.fresh_run [SInt 123] 0 in
  pool_of st (VList Demo.pool) = Some [SInt 123] /\
  _execute Demo.lenient (VList Demo.pool) false st
    = (Return Demo.ok, State (heap st) 1 [SInt 123] []).
Proof. cbv zeta. split; reflexivity. Qed.

Lemma non_iterable_rejected_witness :
  let st := Demo.fresh_run (SStr <$> [Demo.k3]) 0 in
  not_iterable (VScalar (SInt 123)) = true /\
  _execute Demo.lenient (VScalar (SInt 123)) true st = (Raise TypeError, st).
Proof.
  cbv zeta. split; [reflexivity|].
  apply (non_iterable_rejected Demo.lenient (VScalar (SInt 123)) true
           (Demo.fresh_run (SStr <$> [Demo.k3]) 0)).
  reflexivity.
Defined.

Lemma single_credential_normalization_witness :
  let st := Demo.fresh_run [SStr Demo.k3] 0 in
  heap st !! Demo.pool = Some [SStr Demo.k3] /\
  fst (_execute Demo.provider (VScalar (SStr Demo.k3)) true st)
    = fst (_execute Demo.provider (VList Demo.pool) true st) /\
  fst (_execute Demo.provider (VList Demo.pool) true st) = Return Demo.ok.
Proof.
  cbv zeta. split; [reflexivity|].
  pose proof (single_credential_normalization Demo.provider Demo.k3 true
                (Demo.fresh_run [SStr Demo.k3] 0) Demo.pool eq_refl) as H.
  cbv zeta in H.
  destruct H as (_ & _ & Hres & _ & _ & _ & Hdirect & _).
  split; [exact Hres | exact Hdirect].
Defined.

Lemma observer_no_control_flow_witness :
  let st := Demo.fresh_run (SStr <$> [Demo.k1; Demo.k3]) 0 in
  pool_of st (VList Demo.pool) = Some (SStr <$> [Demo.k1; Demo.k3]) /\
  fst (_execute Demo.provider (VList Demo.pool) true st)
    = fst (_execute Demo.provider (VList Demo.pool) false st) /\
  stdout (snd (_execute Demo.provider (VList Demo.pool) false st)) = [].
Proof.
  cbv zeta. split; [reflexivity|].
  pose proof (observer_no_control_flow Demo.provider (VList Demo.pool)
                [Demo.k1; Demo.k3]
                (Demo.fresh_run (SStr <$> [Demo.k1; Demo.k3]) 0) eq_refl) as H.
  cbv zeta in H.
  destruct H as (Hres & _ & _ & _ & Hout).
  split; [exact Hres | exact Hout].
Defined.

(** C8 does not hold of the code.  A credential of six characters is
    printed whole: what is displayed of it is the credential itself, and
    it is not ten characters long. *)
Lemma short_credential_displayed_in_full :
  let st := Demo.fresh_run [] 0 in
  stdout (snd (_execute Demo.provider (VScalar (SStr Demo.short)) true st)) !! 1
    = Some (lit "[Mooch] Trying API key 1/1: " ++ Demo.short ++ lit "...") /\
  masked Demo.short = Demo.short /\
  length (masked Demo.short) <> 10.
Proof. cbv zeta. split; [reflexivity|]. split; [reflexivity|]. vm_compute. lia. Qed.

Lemma log_displays_ten_character_prefix_witness :
  let st := Demo.fresh_run (SStr <$> [Demo.k1; Demo.k3]) 0 in
  pool_of st (VList Demo.pool) = Some (SStr <$> [Demo.k1; Demo.k3]) /\
  stdout (snd (_execute Demo.provider (VList Demo.pool) true st)) =
    [ [];
      lit "[Mooch] Trying API key 1/2: sk-demo-00...";
      msg_rate_limit 1;
      [];
      lit "[Mooch] Trying API key 2/2: sk-demo-00...";
      msg_success 2 ].
Proof.
  cbv zeta. split; [reflexivity|].
  pose proof (log_displays_ten_character_prefix Demo.provider (VList Demo.pool)
                [Demo.k1; Demo.k3]
                (Demo.fresh_run (SStr <$> [Demo.k1; Demo.k3]) 0) eq_refl) as H.
  destruct H as (Hlog & _). rewrite Hlog. reflexivity.
Defined.

(** A caller that passes [api_key=] gets a [TypeError] from the first
    attempt, and the provider is never asked. *)
Lemma caller_api_key_collides_witness :
  let passed := <[lit "api_key" := VScalar (SStr (lit "sk-mine"))]> Demo.model_kw in
  let st := Demo.fresh_run (SStr <$> Demo.k3 :: []) Demo.litellm_world in
  let self := MoochForLiteLLMCompletion.__init__ (VList Demo.pool) false in
  passed !! lit "api_key" = Some (VScalar (SStr (lit "sk-mine"))) /\
  exists st',
    MoochForLiteLLMCompletion.__call__ Demo.completion self [] passed st
      = (Raise TypeError, st') /\
    calls st' = calls st ++ [SStr Demo.k3] /\
    MoochForLiteLLMCompletion.completion_calls (world st')
      = MoochForLiteLLMCompletion.completion_calls (world st).
Proof.
  cbv zeta. split; [vm_compute; reflexivity|].
  apply (caller_api_key_collides Demo.completion
           (MoochForLiteLLMCompletion.__init__ (VList Demo.pool) false) []
           (<[lit "api_key" := VScalar (SStr (lit "sk-mine"))]> Demo.model_kw)
           (VScalar (SStr (lit "sk-mine"))) Demo.k3 []
           (Demo.fresh_run (SStr <$> Demo.k3 :: []) Demo.litellm_world));
    vm_compute; reflexivity.
Defined.

(** ** The loop on any list *)

(** Splits a conjunction into its parts, leaving quantifiers alone. *)
Ltac split_all := repeat match goal with |- _ /\ _ => split end.

Section EngineOutcomes.
Context {W : Type}.
Variable call_func : scalar -> W -> result pyval * W.

(** An attempt either stops at the slice of a key that is not a [str]
    (only when [verbose] is on) or is one invocation. *)
Lemma attempt_cases verbose total i key (st : state W) :
  (verbose = true /\ is_str key = false /\
   attempt call_func verbose total i key st =
   (Raise TypeError,
    State (heap st) (world st) (calls st) (stdout st ++ [[]])))
  \/
  (exists out,
     attempt call_func verbose total i key st =
     (fst (call_func key (world st)),
      State (heap st) (snd (call_func key (world st))) (calls st ++ [key])
            (stdout st ++ out)) /\
     (verbose = false -> out = [])).
Proof.
  unfold attempt, bind, invoke, log, print, slice10, ret, raise.
  destruct verbose.
  - destruct key as [|z|s]; simpl; [left; auto | left; auto |].
    right. destruct (call_func (SStr s) (world st)) as [[v|e] w]; simpl;
      eexists; (split; [rewrite <- ?app_assoc; reflexivity | discriminate]).
  - right. exists []. simpl.
    destruct (call_func key (world st)) as [[v|e] w]; simpl;
      rewrite app_nil_r; auto.
Qed.

(** Where the loop stands when it ends: the keys tried are a prefix of the
    list, a value returned is the answer to the last of them, and a
    rate-limit error comes out only when no key is left. *)
Lemma for_loop_outcome verbose total keys :
  forall i last (st : state W),
  let r := fst (for_loop call_func verbose total i keys last st) in
  let st' := snd (for_loop call_func verbose total i keys last st) in
  exists tried rest out,
    keys = tried ++ rest /\
    calls st' = calls st ++ tried /\
    world st' = thread call_func tried (world st) /\
    stdout st' = stdout st ++ out /\
    (verbose = false -> out = []) /\
    (forall v, r = Return v ->
       exists pre key, tried = pre ++ [key] /\
         call_func key (thread call_func pre (world st))
           = (Return v, world st')) /\
    (forall e, r = Raise e -> is_RateLimitError e = true ->
       rest = [] /\
       ((tried = [] /\ last = Some e) \/
        exists pre key, tried = pre ++ [key] /\
          call_func key (thread call_func pre (world st))
            = (Raise e, world st'))).
Proof.
  induction keys as [|key keys IH]; intros i last st; cbv zeta.
  - exists [], [], (lines_if verbose [msg_all_failed total]).
    simpl. unfold all_failed, bind, log, print, ret, raise.
    destruct verbose, last as [e0|]; simpl; rewrite ?app_nil_r;
      split_all; try reflexivity; try discriminate;
      try (intros; reflexivity); try (intros v Hv; discriminate);
      intros e He Hrl; injection He as <-; try discriminate; auto.
  - simpl for_loop.
    destruct (attempt_cases verbose total i key st)
      as [(Hv & Hk & Hatt) | (out & Hatt & Hout)]; rewrite Hatt.
    + exists [], (key :: keys), [[]]. simpl. rewrite app_nil_r.
      split_all; try reflexivity; try (intros; discriminate).
      * intros Hf. rewrite Hf in Hv. discriminate.
      * intros e He Hrl. injection He as <-. discriminate.
    + destruct (call_func key (world st)) as [[v|e] w] eqn:Hcall; simpl.
      * exists [key], keys, out. simpl. rewrite Hcall. simpl.
        split_all; try reflexivity; try assumption;
          try (intros; discriminate).
        intros v' Hv'. injection Hv' as <-. exists [], key. simpl.
        rewrite Hcall. auto.
      * destruct (is_RateLimitError e) eqn:He.
        -- set (st2 := snd (log verbose (msg_rate_limit (i + 1)) _)).
           destruct (IH (S i) (Some e) st2)
             as (tried & rest & out' & Hkeys & Hcalls & Hworld & Hstd
                 & Hquiet & Hret & Hrl).
           assert (Hw2 : world st2 = w)
             by (subst st2; destruct verbose; reflexivity).
           assert (Hc2 : calls st2 = calls st ++ [key])
             by (subst st2; destruct verbose; reflexivity).
           assert (Hs2 : exists out2, stdout st2 = stdout st ++ out2 /\
                           (verbose = false -> out2 = [])).
           { subst st2. destruct verbose; simpl.
             - eexists; split; [rewrite <- app_assoc; reflexivity
                               | discriminate].
             - exists out; auto. }
           destruct Hs2 as (out2 & Hs2 & Hq2).
           exists (key :: tried), rest, (out2 ++ out').
           simpl thread. rewrite Hcall. simpl snd.
           rewrite Hw2 in Hworld, Hret, Hrl.
           split_all.
           ++ simpl. rewrite Hkeys. reflexivity.
           ++ rewrite Hcalls, Hc2, <- app_assoc. reflexivity.
           ++ exact Hworld.
           ++ rewrite Hstd, Hs2, <- app_assoc. reflexivity.
           ++ intros Hf. rewrite (Hq2 Hf), (Hquiet Hf). reflexivity.
           ++ intros v Hv. destruct (Hret v Hv) as (pre & k & Ht & Hk).
              exists (key :: pre), k. simpl. rewrite Hcall. simpl.
              rewrite Ht. auto.
           ++ intros e0 He0 Hrl0.
              destruct (Hrl e0 He0 Hrl0)
                as (Hrest & [(Ht & Hl) | (pre & k & Ht & Hk)]);
                (split; [exact Hrest|]).
              ** right. exists [], key. injection Hl as <-. rewrite Ht.
                 simpl. rewrite Ht in Hworld. simpl in Hworld.
                 rewrite Hworld, Hcall. auto.
              ** right. exists (key :: pre), k. simpl. rewrite Hcall. simpl.
                 rewrite Ht. auto.
        -- exists [key], keys, out. simpl. rewrite Hcall. simpl.
           split_all; try reflexivity; try assumption;
             try (intros; discriminate).
           intros e' He' Hrl. injection He' as <-. congruence.
Qed.

(** The same for [_execute] on a pool. *)
Lemma execute_outcome api_keys verbose keys (st : state W) :
  pool_of st api_keys = Some keys ->
  let r := fst (_execute call_func api_keys verbose st) in
  let st' := snd (_execute call_func api_keys verbose st) in
  exists tried rest out,
    keys = tried ++ rest /\
    calls st' = calls st ++ tried /\
    world st' = thread call_func tried (world st) /\
    stdout st' = stdout st ++ out /\
    (verbose = false -> out = []) /\
    (forall v, r = Return v ->
       exists pre key, tried = pre ++ [key] /\
         call_func key (thread call_func pre (world st))
           = (Return v, world st')) /\
    (forall e, r = Raise e -> is_RateLimitError e = true ->
       rest = [] /\
       exists pre key, tried = pre ++ [key] /\
         call_func key (thread call_func pre (world st))
           = (Raise e, world st')).
Proof.
  intros Hpool. cbv zeta.
  rewrite (execute_pool call_func api_keys verbose keys st Hpool).
  destruct (normalize_frame api_keys st) as (Hw & Hc & Ho).
  destruct (for_loop_outcome verbose (length keys) keys 0 None
              (snd (normalize api_keys st)))
    as (tried & rest & out & Hkeys & Hcalls & Hworld & Hstd & Hquiet
        & Hret & Hrl).
  rewrite Hw in Hworld, Hret, Hrl. rewrite Hc in Hcalls. rewrite Ho in Hstd.
  exists tried, rest, out. split_all; try assumption.
  intros e He Hrle. destruct (Hrl e He Hrle) as (Hrest & [(_ & Hl) | Hlast]).
  - discriminate.
  - auto.
Qed.

(** X4.  [_execute] on the empty list: nothing is invoked, the only line
    printed is the closing one, and [raise None] gives a [TypeError]. *)
Theorem empty_list_makes_no_attempt l verbose (st : state W) :
  heap st !! l = Some [] ->
  _execute call_func (VList l) verbose st =
  (Raise TypeError,
   State (heap st) (world st) (calls st)
         (stdout st ++ lines_if verbose [msg_all_failed 0])).
Proof.
  intros Hl. unfold _execute, bind, normalize, ret, py_iter. simpl.
  rewrite Hl. simpl. unfold all_failed, bind, log, print, ret, raise.
  destruct verbose; simpl; rewrite ?app_nil_r; destruct st; reflexivity.
Qed.

(** X1.  The keys [_execute] invokes are a prefix of the pool, in pool order,
    each once; the world it leaves is the one those invocations produce,
    one after the other. *)
Theorem invocations_follow_the_pool api_keys verbose keys (st : state W) :
  pool_of st api_keys = Some keys ->
  let st' := snd (_execute call_func api_keys verbose st) in
  exists tried rest,
    keys = tried ++ rest /\
    calls st' = calls st ++ tried /\
    world st' = thread call_func tried (world st).
Proof.
  intros Hpool. cbv zeta.
  destruct (execute_outcome api_keys verbose keys st Hpool)
    as (tried & rest & out & Hkeys & Hcalls & Hworld & _).
  exists tried, rest. auto.
Qed.

(** X2.  A value [_execute] returns is the answer of the last key it invoked,
    given in the world the invocations before it produced. *)
Theorem returned_value_is_last_answer api_keys verbose keys (st : state W) v :
  pool_of st api_keys = Some keys ->
  fst (_execute call_func api_keys verbose st) = Return v ->
  let st' := snd (_execute call_func api_keys verbose st) in
  exists pre key rest,
    keys = pre ++ key :: rest /\
    calls st' = calls st ++ pre ++ [key] /\
    call_func key (thread call_func pre (world st)) = (Return v, world st').
Proof.
  intros Hpool Hres. cbv zeta.
  destruct (execute_outcome api_keys verbose keys st Hpool)
    as (tried & rest & out & Hkeys & Hcalls & _ & _ & _ & Hret & _).
  destruct (Hret v Hres) as (pre & key & Ht & Hk).
  exists pre, key, rest. rewrite Hkeys, Hcalls, Ht, <- app_assoc. auto.
Qed.

(** X3.  A rate-limit error comes out of [_execute] only when every key of the
    pool has been invoked, and it is the error the last key raised. *)
Theorem rate_limit_error_only_after_exhaustion api_keys verbose keys
    (st : state W) e :
  pool_of st api_keys = Some keys ->
  fst (_execute call_func api_keys verbose st) = Raise e ->
  is_RateLimitError e = true ->
  let st' := snd (_execute call_func api_keys verbose st) in
  calls st' = calls st ++ keys /\
  exists pre key,
    keys = pre ++ [key] /\
    call_func key (thread call_func pre (world st)) = (Raise e, world st').
Proof.
  intros Hpool Hres Hrl. cbv zeta.
  destruct (execute_outcome api_keys verbose keys st Hpool)
    as (tried & rest & out & Hkeys & Hcalls & _ & _ & _ & _ & Hexh).
  destruct (Hexh e Hres Hrl) as (Hrest & pre & key & Ht & Hk).
  rewrite Hrest, app_nil_r in Hkeys. rewrite <- Hkeys in Hcalls, Ht.
  split; [exact Hcalls|]. exists pre, key. auto.
Qed.

Lemma execute_quiet api_keys (st : state W) :
  stdout (snd (_execute call_func api_keys false st)) = stdout st.
Proof.
  destruct (pool_of st api_keys) as [keys|] eqn:Hpool.
  - destruct (execute_outcome api_keys false keys st Hpool)
      as (tried & rest & out & _ & _ & _ & Hstd & Hquiet & _).
    rewrite Hstd, (Hquiet eq_refl), app_nil_r. reflexivity.
  - destruct api_keys as [[| |s]|l|id]; simpl in Hpool; try discriminate;
      try reflexivity.
    unfold _execute, bind, normalize, ret, py_iter. simpl.
    rewrite Hpool. reflexivity.
Qed.

(** X5.  With [verbose] off [_execute] prints nothing, whatever it is given:
    a pool, a list with elements that are not keys, or a value that is no
    list at all. *)
Theorem quiet_prints_nothing api_keys (st : state W) :
  stdout (snd (_execute call_func api_keys false st)) = stdout st.
Proof. apply execute_quiet. Qed.

(** X6.  A key that is not a [str] is where [verbose] changes the course of the
    run: past rate-limited keys, [verbose] on raises the [TypeError] of
    the slice and never invokes that key; [verbose] off invokes it. *)
Theorem verbose_stops_at_non_string_key api_keys (st : state W)
    pre key rest w1 last :
  pool_of st api_keys = Some ((SStr <$> pre) ++ key :: rest) ->
  is_str key = false ->
  all_rate_limited call_func (SStr <$> pre) (world st) None
    = Some (w1, last) ->
  (exists st',
     _execute call_func api_keys true st = (Raise TypeError, st') /\
     calls st' = calls st ++ (SStr <$> pre) /\
     world st' = w1) /\
  (exists more,
     calls (snd (_execute call_func api_keys false st))
       = calls st ++ (SStr <$> pre) ++ key :: more).
Proof.
  intros Hpool Hkey Hall.
  destruct (normalize_frame api_keys st) as (Hw & Hc & Ho).
  rewrite <- Hw in Hall. split.
  - rewrite (execute_pool call_func api_keys true _ st Hpool).
    rewrite (for_loop_rate_limited call_func true _ pre 0 (key :: rest) None
               _ w1 last Hall).
    simpl for_loop. unfold attempt, bind, slice10, print, raise.
    destruct key as [|z|s]; [| |discriminate]; simpl;
      (eexists; split; [reflexivity|]); simpl; rewrite Hc; auto.
  - rewrite (execute_pool call_func api_keys false _ st Hpool).
    rewrite (for_loop_rate_limited call_func false _ pre 0 (key :: rest) None
               _ w1 last Hall).
    set (st1 := State _ _ _ _).
    destruct (for_loop_outcome false
                (length ((SStr <$> pre) ++ key :: rest)) (key :: rest)
                (0 + length pre) last st1)
      as (tried & rest' & out & Hkeys & Hcalls & _ & _ & _ & _).
    cbv zeta in Hcalls.
    assert (Hne : exists more, tried = key :: more).
    { revert Hcalls. simpl for_loop.
      unfold attempt, bind, invoke, log, ret. simpl.
      destruct (call_func key w1) as [[v|e] w]; simpl.
      - intros Hcalls. apply app_inv_head in Hcalls.
        destruct tried as [|k tried]; [discriminate|].
        injection Hkeys as <- _. eauto.
      - destruct tried as [|k tried].
        + destruct (is_RateLimitError e).
          * intros Hcalls. exfalso.
            match type of Hcalls with
            | calls (snd ?x) = _ =>
                destruct (for_loop_outcome false
                            (length ((SStr <$> pre) ++ key :: rest)) rest
                            (S (0 + length pre)) (Some e)
                            (State (heap st1) w (calls st1 ++ [key])
                                   (stdout st1)))
                  as (t2 & r2 & o2 & _ & Hc2 & _)
            end.
            cbv zeta in Hc2. simpl in Hc2, Hcalls.
            rewrite Hcalls, app_nil_r in Hc2.
            apply (f_equal length) in Hc2.
            rewrite !length_app in Hc2. simpl in Hc2. lia.
          * simpl. intros Hcalls. rewrite app_nil_r in Hcalls.
            apply (f_equal length) in Hcalls.
            rewrite !length_app in Hcalls. simpl in Hcalls. lia.
        + intros _. injection Hkeys as <- _. eauto. }
    destruct Hne as (more & ->).
    exists more. rewrite Hcalls. subst st1. simpl. rewrite Hc, <- app_assoc.
    reflexivity.
Qed.

End EngineOutcomes.

(** ** The LiteLLM adapter on the empty list *)

Section LiteLLMOutcomes.
Import MoochForLiteLLMCompletion.
Context {E : Type}.
Variable completion : list pyval -> kwdict -> E -> result pyval * E.

(** X8.  A wrapper built on the empty list is built without an error, and
    every call of it raises a [TypeError] without asking
    [litellm.completion] anything. *)
Theorem wrapper_on_empty_list_never_calls_completion l verbose args passed
    (st : state (lworld E)) :
  heap st !! l = Some [] ->
  let r := __call__ completion (__init__ (VList l) verbose) args passed st in
  fst r = Raise TypeError /\
  calls (snd r) = calls st /\
  completion_calls (world (snd r)) = completion_calls (world st).
Proof.
  intros Hl. cbv zeta. unfold __call__, __init__.
  cbn [MoochForLiteLLMCompletion.api_keys MoochForLiteLLMCompletion.verbose].
  destruct (clashes [lit "self"] passed); [auto|].
  unfold _execute, bind, normalize, ret, py_iter. simpl. rewrite Hl. simpl.
  unfold all_failed, bind, log, print, ret, raise.
  destruct verbose; simpl; split_all; reflexivity.
Qed.

(** X9.  A wrapper obtained from the switcher with [verbose=False] prints
    nothing, whatever the switcher's default is: an explicit [False] is
    not mistaken for a missing argument. *)
Theorem explicit_quiet_overrides_default self api_keys args passed
    (st : state (lworld E)) :
  exists use_verbose,
    MoochSwitcherCall.__call__ self MoochSwitcherCall.litellm_completion
      (Some false)
      = Return (MoochSwitcherCall.ForLiteLLMCompletion use_verbose) /\
    stdout (snd (__call__ completion
                   (MoochSwitcherCall.build_completion use_verbose api_keys)
                   args passed st))
      = stdout st.
Proof.
  exists false. split; [reflexivity|].
  unfold __call__, MoochSwitcherCall.build_completion, __init__.
  cbn [MoochForLiteLLMCompletion.api_keys MoochForLiteLLMCompletion.verbose].
  destruct (clashes [lit "self"] passed); [reflexivity|].
  rewrite execute_quiet. reflexivity.
Qed.

End LiteLLMOutcomes.

(** ** The OpenAI adapter's requests *)

Section OpenAIOutcomes.
Import MoochForOpenAIClient.
Context {E : Type}.
Variable OpenAI_new : pyval -> list pyval -> kwdict -> E -> result unit * E.
Variable chat_create :
  pyval * list pyval * kwdict -> list pyval -> kwdict -> E -> result pyval * E.

Lemma call_constructs self key args kwargs (w : oworld E) :
  clashes [lit "self"; lit "api_key"] kwargs = false ->
  clashes [lit "api_key"] (init_kwargs self) = false ->
  let w' := snd (_call OpenAI_new chat_create self key args kwargs w) in
  constructions w' = constructions w ++ [temp_client_of self key] /\
  (requests w' = requests w \/
   requests w' = requests w ++ [request_of self args kwargs key]).
Proof.
  intros Hk Hi. cbv zeta. unfold _call, construct. rewrite Hk, Hi.
  destruct (OpenAI_new _ _ _ (provider_state w)) as [[u|e] e1]; simpl.
  - destruct (chat_create _ args kwargs e1) as [r e2]. simpl. auto.
  - auto.
Qed.

(** What a run of [_call]s leaves on record. *)
Lemma thread_call_constructs self args kwargs tried :
  clashes [lit "self"; lit "api_key"] kwargs = false ->
  clashes [lit "api_key"] (init_kwargs self) = false ->
  forall w : oworld E,
  let w' := thread (fun key => _call OpenAI_new chat_create self key args kwargs)
              tried w in
  constructions w' = constructions w ++ (temp_client_of self <$> tried) /\
  exists sent,
    sent `sublist_of` tried /\
    requests w' = requests w ++ (request_of self args kwargs <$> sent).
Proof.
  intros Hk Hi. induction tried as [|key tried IH]; intros w; cbv zeta.
  - simpl. rewrite app_nil_r. split; [reflexivity|].
    exists []. simpl. rewrite app_nil_r. split; [constructor | reflexivity].
  - simpl thread.
    destruct (call_constructs self key args kwargs w Hk Hi) as (Hc & Hr).
    cbv zeta in Hc, Hr.
    destruct (IH (snd (_call OpenAI_new chat_create self key args kwargs w)))
      as (Hc' & sent & Hsub & Hr').
    cbv zeta in Hc', Hr'. split.
    + rewrite Hc', Hc, <- app_assoc. reflexivity.
    + destruct Hr as [Hr | Hr].
      * exists sent. split; [apply sublist_cons, Hsub|].
        rewrite Hr', Hr. reflexivity.
      * exists (key :: sent). split; [apply sublist_skip, Hsub|].
        rewrite Hr', Hr, <- app_assoc. reflexivity.
Qed.

Lemma clashes_two_absent p q kwargs :
  kwargs !! p = None -> kwargs !! q = None -> clashes [p; q] kwargs = false.
Proof.
  intros Hp Hq. unfold clashes. simpl. rewrite Hp, Hq.
  rewrite bool_decide_eq_false_2; [reflexivity|].
  intros [x Hx]. discriminate.
Qed.

(** X10.  Every attempt of [create] constructs a client of its own, with the
    key of that attempt and the constructor arguments kept by [__init__],
    and every request goes out on such a client with the caller's
    arguments as they were given. *)
Theorem create_uses_a_client_per_attempt self args kwargs keys
    (st : state (oworld E)) :
  kwargs !! lit "self" = None ->
  kwargs !! lit "api_key" = None ->
  init_kwargs self !! lit "api_key" = None ->
  pool_of st (api_keys self) = Some keys ->
  let st' := snd (_create OpenAI_new chat_create self args kwargs st) in
  exists tried rest sent,
    keys = tried ++ rest /\
    calls st' = calls st ++ tried /\
    constructions (world st')
      = constructions (world st) ++ (temp_client_of self <$> tried) /\
    sent `sublist_of` tried /\
    requests (world st')
      = requests (world st) ++ (request_of self args kwargs <$> sent).
Proof.
  intros Hself Hkey Hinit Hpool. cbv zeta. unfold _create.
  rewrite (clashes_absent _ _ Hself).
  destruct (execute_outcome
              (fun key => _call OpenAI_new chat_create self key args kwargs)
              (api_keys self) (verbose self) keys st Hpool)
    as (tried & rest & out & Hkeys & Hcalls & Hworld & _).
  cbv zeta in Hcalls, Hworld.
  destruct (thread_call_constructs self args kwargs tried
              (clashes_two_absent _ _ _ Hself Hkey)
              (clashes_absent _ _ Hinit) (world st))
    as (Hc & sent & Hsub & Hr).
  cbv zeta in Hc, Hr.
  exists tried, rest, sent. rewrite Hworld. auto.
Qed.

(** X11.  A request that passes [api_key=] collides with the parameter
    [api_key] of [_call]: the first attempt raises a [TypeError], no
    client is constructed and no request is made. *)
Theorem create_api_key_collides self args kwargs v key ks
    (st : state (oworld E)) :
  kwargs !! lit "api_key" = Some v ->
  kwargs !! lit "self" = None ->
  pool_of st (api_keys self) = Some (SStr <$> key :: ks) ->
  exists st',
    _create OpenAI_new chat_create self args kwargs st
      = (Raise TypeError, st') /\
    calls st' = calls st ++ [SStr key] /\
    constructions (world st') = constructions (world st) /\
    requests (world st') = requests (world st).
Proof.
  intros Hkey Hself Hpool. unfold _create.
  rewrite (clashes_absent _ _ Hself).
  rewrite (execute_pool _ (api_keys self) (verbose self) _ st Hpool).
  rewrite fmap_cons. simpl for_loop. rewrite attempt_str.
  destruct (normalize_frame (W:=oworld E) (api_keys self) st) as (Hw & Hc & Ho).
  rewrite Hw, Hc. unfold _call at 1.
  rewrite (clashes_present (lit "api_key") _ kwargs v Hkey)
    by (apply list_elem_of_further, list_elem_of_here).
  simpl. eexists; split; [reflexivity|]. auto.
Qed.

(** X12.  A client constructed from a [str] gives the base constructor the
    first character of it as the key; the requests made through the
    client are attempted with the whole string. *)
Theorem str_seeds_base_client_with_first_character c s verbose args kwargs
    (st : state (oworld E)) :
  kwargs !! lit "api_key" = None ->
  let r := __init__ (construct OpenAI_new) (VScalar (SStr (c :: s)))
             verbose args kwargs st in
  constructions (world (snd r))
    = constructions (world st) ++ [(VScalar (SStr [c]), args, kwargs)] /\
  forall self, fst r = Return self ->
    forall rargs rkwargs (st1 : state (oworld E)),
      rkwargs !! lit "self" = None ->
      rkwargs !! lit "api_key" = None ->
      let st' := snd (_create OpenAI_new chat_create self rargs rkwargs st1) in
      calls st' = calls st1 ++ [SStr (c :: s)] /\
      constructions (world st')
        = constructions (world st1)
            ++ [(VScalar (SStr (c :: s)), args, kwargs)].
Proof.
  intros Hkw. cbv zeta.
  unfold __init__, bind, first_item, super_init, construct, raise, ret.
  rewrite (clashes_absent _ _ Hkw). simpl.
  destruct (OpenAI_new _ args kwargs (provider_state (world st)))
    as [[u|e] e1]; simpl; (split; [reflexivity|]); [|discriminate].
  intros self Hself. injection Hself as <-.
  intros rargs rkwargs st1 Hrs Hrk. unfold _create.
  rewrite (clashes_absent _ _ Hrs).
  cbn [MoochForOpenAIClient.api_keys MoochForOpenAIClient.verbose
       MoochForOpenAIClient.init_args MoochForOpenAIClient.init_kwargs].
  rewrite (execute_pool _ (VScalar (SStr (c :: s))) verbose [SStr (c :: s)]
             st1 eq_refl).
  simpl for_loop. rewrite attempt_str. simpl world. unfold _call, construct.
  cbn [MoochForOpenAIClient.api_keys MoochForOpenAIClient.verbose
       MoochForOpenAIClient.init_args MoochForOpenAIClient.init_kwargs].
  rewrite (clashes_two_absent _ _ _ Hrs Hrk), (clashes_absent _ _ Hkw).
  destruct (OpenAI_new _ args kwargs (provider_state (world st1)))
    as [[u1|e1'] e2]; simpl.
  - destruct (chat_create _ rargs rkwargs e2) as [[v|e3] e4]; simpl;
      [auto|].
    destruct (is_RateLimitError e3); simpl; [|auto].
    unfold all_failed, bind, log, print, ret, raise.
    destruct verbose; simpl; auto.
  - destruct (is_RateLimitError e1'); simpl; [|auto].
    unfold all_failed, bind, log, print, ret, raise.
    destruct verbose; simpl; auto.
Qed.

End OpenAIOutcomes.

(** ** Building a client through the switcher *)

Section BuildClient.
Context {W : Type}.
Variable OpenAI_init : pyval -> list pyval -> kwdict -> W -> result unit * W.

(** X13.  The client the switcher builds keeps the keys and the constructor
    arguments it was given, with the [verbose] of the call or, failing
    that, the switcher's default; building it invokes nothing and prints
    nothing. *)
Theorem built_client_keeps_its_arguments self verbose api_keys args kwargs
    (st st' : state W) c :
  MoochSwitcherCall.build_client OpenAI_init
    (default (MoochSwitcherCall.default_verbose self) verbose)
    api_keys args kwargs st = (Return c, st') ->
  MoochSwitcherCall.__call__ self MoochSwitcherCall.OpenAI_class verbose
    = Return (MoochSwitcherCall.ForOpenAIClient
                (default (MoochSwitcherCall.default_verbose self) verbose)) /\
  c = MoochForOpenAIClient.Client api_keys
        (default (MoochSwitcherCall.default_verbose self) verbose) args kwargs /\
  heap st' = heap st /\ calls st' = calls st /\ stdout st' = stdout st.
Proof.
  intros Hbuild. split; [destruct verbose; reflexivity|].
  revert Hbuild.
  unfold MoochSwitcherCall.build_client, MoochForOpenAIClient.__init__,
    MoochForOpenAIClient.super_init, bind, raise, ret.
  destruct (clashes _ kwargs); [discriminate|].
  destruct (MoochForOpenAIClient.first_item api_keys st) as [[k|e] st1] eqn:Hfirst;
    [|discriminate].
  assert (Hst1 : st1 = st).
  { revert Hfirst. unfold MoochForOpenAIClient.first_item.
    destruct api_keys as [[| |[|ch t]]|l|id]; try congruence.
    destruct (heap st !! l) as [[|x xs]|]; congruence. }
  subst st1.
  destruct (clashes [lit "api_key"] kwargs); [discriminate|].
  destruct (OpenAI_init k args kwargs (world st)) as [[u|e] w]; [|discriminate].
  intros Heq. injection Heq as <- <-. auto.
Qed.

End BuildClient.

(** ** More runs *)

Lemma empty_list_makes_no_attempt_witness :
  let st := Demo.fresh_run [] 0 in
  heap st !! Demo.pool = Some [] /\
  _execute Demo.provider (VList Demo.pool) true st =
  (Raise TypeError,
   State (heap st) (world st) (calls st)
         (stdout st ++ lines_if true [msg_all_failed 0])).
Proof.
  cbv zeta. split; [reflexivity|].
  apply (empty_list_makes_no_attempt Demo.provider Demo.pool true
           (Demo.fresh_run [] 0)).
  reflexivity.
Defined.

Lemma invocations_follow_the_pool_witness :
  let keys := SStr <$> [Demo.k1; Demo.k3; Demo.k2] in
  let st := Demo.fresh_run keys 0 in
  pool_of st (VList Demo.pool) = Some keys /\
  exists tried rest,
    keys = tried ++ rest /\
    calls (snd (_execute Demo.provider (VList Demo.pool) false st))
      = calls st ++ tried /\
    world (snd (_execute Demo.provider (VList Demo.pool) false st))
      = thread Demo.provider tried (world st).
Proof.
  cbv zeta. split; [reflexivity|].
  apply (invocations_follow_the_pool Demo.provider (VList Demo.pool) false
           (SStr <$> [Demo.k1; Demo.k3; Demo.k2])
           (Demo.fresh_run (SStr <$> [Demo.k1; Demo.k3; Demo.k2]) 0)).
  reflexivity.
Defined.

Lemma returned_value_is_last_answer_witness :
  let keys := SStr <$> [Demo.k1; Demo.k3; Demo.k2] in
  let st := Demo.fresh_run keys 0 in
  fst (_execute Demo.provider (VList Demo.pool) true st) = Return Demo.ok /\
  exists pre key rest,
    keys = pre ++ key :: rest /\
    calls (snd (_execute Demo.provider (VList Demo.pool) true st))
      = calls st ++ pre ++ [key] /\
    Demo.provider key (thread Demo.provider pre (world st))
      = (Return Demo.ok,
         world (snd (_execute Demo.provider (VList Demo.pool) true st))).
Proof.
  cbv zeta. split; [vm_compute; reflexivity|].
  apply (returned_value_is_last_answer Demo.provider (VList Demo.pool) true
           (SStr <$> [Demo.k1; Demo.k3; Demo.k2])
           (Demo.fresh_run (SStr <$> [Demo.k1; Demo.k3; Demo.k2]) 0) Demo.ok);
    vm_compute; reflexivity.
Defined.

Lemma rate_limit_error_only_after_exhaustion_witness :
  let keys := SStr <$> [Demo.k1; Demo.k2] in
  let st := Demo.fresh_run keys 0 in
  let e := RateLimitError (lit "429 " ++ Demo.k2) in
  fst (_execute Demo.provider (VList Demo.pool) true st) = Raise e /\
  calls (snd (_execute Demo.provider (VList Demo.pool) true st))
    = calls st ++ keys /\
  exists pre key,
    keys = pre ++ [key] /\
    Demo.provider key (thread Demo.provider pre (world st))
      = (Raise e, world (snd (_execute Demo.provider (VList Demo.pool) true st))).
Proof.
  cbv zeta. split; [vm_compute; reflexivity|].
  apply (rate_limit_error_only_after_exhaustion Demo.provider
           (VList Demo.pool) true (SStr <$> [Demo.k1; Demo.k2])
           (Demo.fresh_run (SStr <$> [Demo.k1; Demo.k2]) 0)
           (RateLimitError (lit "429 " ++ Demo.k2)));
    vm_compute; reflexivity.
Defined.

Lemma verbose_stops_at_non_string_key_witness :
  let keys := (SStr <$> [Demo.k1]) ++ SInt 7 :: [SStr Demo.k3] in
  let st := Demo.fresh_run keys 0 in
  is_str (SInt 7) = false /\
  (exists st',
     _execute Demo.provider (VList Demo.pool) true st = (Raise TypeError, st') /\
     calls st' = calls st ++ (SStr <$> [Demo.k1]) /\
     world st' = 1) /\
  (exists more,
     calls (snd (_execute Demo.provider (VList Demo.pool) false st))
       = calls st ++ (SStr <$> [Demo.k1]) ++ SInt 7 :: more).
Proof.
  cbv zeta. split; [reflexivity|].
  apply (verbose_stops_at_non_string_key Demo.provider (VList Demo.pool)
           (Demo.fresh_run ((SStr <$> [Demo.k1]) ++ SInt 7 :: [SStr Demo.k3]) 0)
           [Demo.k1] (SInt 7) [SStr Demo.k3] 1
           (Some (RateLimitError (lit "429 " ++ Demo.k1))));
    vm_compute; reflexivity.
Defined.

Lemma completion_receives_pool_key_witness :
  let st := Demo.fresh_run (SStr <$> [Demo.k1; Demo.k3]) Demo.litellm_world in
  let self := MoochForLiteLLMCompletion.__init__ (VList Demo.pool) false in
  let st' := snd (MoochForLiteLLMCompletion.__call__ Demo.completion self []
                    Demo.model_kw st) in
  Demo.model_kw !! lit "api_key" = None /\
  exists tried,
    calls st' = calls st ++ tried /\
    MoochForLiteLLMCompletion.completion_calls (world st')
      = MoochForLiteLLMCompletion.completion_calls (world st)
          ++ (injected [] Demo.model_kw <$> tried) /\
    MoochForLiteLLMCompletion.dicts (world st)
      ⊆ MoochForLiteLLMCompletion.dicts (world st').
Proof.
  cbv zeta. split; [vm_compute; reflexivity|].
  apply (completion_receives_pool_key Demo.completion
           (MoochForLiteLLMCompletion.__init__ (VList Demo.pool) false) []
           Demo.model_kw [Demo.k1; Demo.k3]
           (Demo.fresh_run (SStr <$> [Demo.k1; Demo.k3]) Demo.litellm_world));
    vm_compute; reflexivity.
Defined.

Lemma wrapper_on_empty_list_never_calls_completion_witness :
  let st := Demo.fresh_run [] Demo.litellm_world in
  let r := MoochForLiteLLMCompletion.__call__ Demo.completion
             (MoochForLiteLLMCompletion.__init__ (VList Demo.pool) true)
             [] Demo.model_kw st in
  heap st !! Demo.pool = Some [] /\
  fst r = Raise TypeError /\
  calls (snd r) = calls st /\
  MoochForLiteLLMCompletion.completion_calls (world (snd r))
    = MoochForLiteLLMCompletion.completion_calls (world st).
Proof.
  cbv zeta. split; [reflexivity|].
  apply (wrapper_on_empty_list_never_calls_completion Demo.completion
           Demo.pool true [] Demo.model_kw
           (Demo.fresh_run [] Demo.litellm_world)).
  reflexivity.
Defined.

Lemma create_uses_a_client_per_attempt_witness :
  let self := MoochForOpenAIClient.Client (VList Demo.pool) false []
                Demo.base_url_kw in
  let st := Demo.fresh_run (SStr <$> [Demo.k1; Demo.k3]) Demo.openai_world in
  let st' := snd (MoochForOpenAIClient._create Demo.openai_new Demo.chat_create
                    self [] Demo.model_kw st) in
  Demo.model_kw !! lit "api_key" = None /\
  exists tried rest sent,
    SStr <$> [Demo.k1; Demo.k3] = tried ++ rest /\
    calls st' = calls st ++ tried /\
    MoochForOpenAIClient.constructions (world st')
      = MoochForOpenAIClient.constructions (world st)
          ++ (temp_client_of self <$> tried) /\
    sent `sublist_of` tried /\
    MoochForOpenAIClient.requests (world st')
      = MoochForOpenAIClient.requests (world st)
          ++ (request_of self [] Demo.model_kw <$> sent).
Proof.
  cbv zeta. split; [vm_compute; reflexivity|].
  apply (create_uses_a_client_per_attempt Demo.openai_new Demo.chat_create
           (MoochForOpenAIClient.Client (VList Demo.pool) false []
              Demo.base_url_kw)
           [] Demo.model_kw (SStr <$> [Demo.k1; Demo.k3])
           (Demo.fresh_run (SStr <$> [Demo.k1; Demo.k3]) Demo.openai_world));
    vm_compute; reflexivity.
Defined.

Lemma create_api_key_collides_witness :
  let self := MoochForOpenAIClient.Client (VList Demo.pool) false []
                Demo.base_url_kw in
  let kwargs := <[lit "api_key" := VScalar (SStr (lit "sk-mine"))]> Demo.model_kw in
  let st := Demo.fresh_run (SStr <$> Demo.k3 :: []) Demo.openai_world in
  kwargs !! lit "api_key" = Some (VScalar (SStr (lit "sk-mine"))) /\
  exists st',
    MoochForOpenAIClient._create Demo.openai_new Demo.chat_create self []
      kwargs st = (Raise TypeError, st') /\
    calls st' = calls st ++ [SStr Demo.k3] /\
    MoochForOpenAIClient.constructions (world st')
      = MoochForOpenAIClient.constructions (world st) /\
    MoochForOpenAIClient.requests (world st')
      = MoochForOpenAIClient.requests (world st).
Proof.
  cbv zeta. split; [vm_compute; reflexivity|].
  apply (create_api_key_collides Demo.openai_new Demo.chat_create
           (MoochForOpenAIClient.Client (VList Demo.pool) false []
              Demo.base_url_kw)
           [] (<[lit "api_key" := VScalar (SStr (lit "sk-mine"))]> Demo.model_kw)
           (VScalar (SStr (lit "sk-mine"))) Demo.k3 []
           (Demo.fresh_run (SStr <$> Demo.k3 :: []) Demo.openai_world));
    vm_compute; reflexivity.
Defined.

Lemma str_seeds_base_client_with_first_character_witness :
  let st := Demo.fresh_run [] Demo.openai_world in
  let r := MoochForOpenAIClient.__init__
             (MoochForOpenAIClient.construct Demo.openai_new)
             (VScalar (SStr (115%N :: lit "k-abc"))) false []
             Demo.base_url_kw st in
  Demo.base_url_kw !! lit "api_key" = None /\
  MoochForOpenAIClient.constructions (world (snd r))
    = [(VScalar (SStr (lit "s")), [], Demo.base_url_kw)] /\
  calls (snd (MoochForOpenAIClient._create Demo.openai_new Demo.chat_create
                (MoochForOpenAIClient.Client
                   (VScalar (SStr (115%N :: lit "k-abc"))) false []
                   Demo.base_url_kw)
                [] Demo.model_kw st))
    = [SStr (lit "sk-abc")].
Proof.
  cbv zeta.
  assert (Hkw : Demo.base_url_kw !! lit "api_key" = None)
    by (vm_compute; reflexivity).
  split; [exact Hkw|].
  destruct (str_seeds_base_client_with_first_character Demo.openai_new
              Demo.chat_create 115%N (lit "k-abc") false [] Demo.base_url_kw
              (Demo.fresh_run [] Demo.openai_world) Hkw) as (Hseed & Hreq).
  split; [exact Hseed|].
  apply (Hreq _ eq_refl [] Demo.model_kw
           (Demo.fresh_run [] Demo.openai_world));
    vm_compute; reflexivity.
Defined.

Lemma built_client_keeps_its_arguments_witness :
  let st := Demo.fresh_run (SStr <$> [Demo.k1; Demo.k3]) 0 in
  let c := MoochForOpenAIClient.Client (VList Demo.pool) true []
             Demo.base_url_kw in
  let st' := State (heap st) 1 [] [] in
  MoochSwitcherCall.build_client Demo.base_init
    (default (MoochSwitcherCall.default_verbose MoochSwitcherCall.mooch)
       (Some true))
    (VList Demo.pool) [] Demo.base_url_kw st = (Return c, st') /\
  MoochSwitcherCall.__call__ MoochSwitcherCall.mooch
    MoochSwitcherCall.OpenAI_class (Some true)
    = Return (MoochSwitcherCall.ForOpenAIClient true) /\
  heap st' = heap st.
Proof.
  cbv zeta.
  assert (Hbuild :
    MoochSwitcherCall.build_client Demo.base_init
      (default (MoochSwitcherCall.default_verbose MoochSwitcherCall.mooch)
         (Some true))
      (VList Demo.pool) [] Demo.base_url_kw
      (Demo.fresh_run (SStr <$> [Demo.k1; Demo.k3]) 0)
    = (Return (MoochForOpenAIClient.Client (VList Demo.pool) true []
                 Demo.base_url_kw),
       State (heap (Demo.fresh_run (SStr <$> [Demo.k1; Demo.k3]) 0)) 1 [] []))
    by (vm_compute; reflexivity).
  split; [exact Hbuild|].
  destruct (built_client_keeps_its_arguments Demo.base_init
              MoochSwitcherCall.mooch (Some true) (VList Demo.pool) []
              Demo.base_url_kw _ _ _ Hbuild) as (Hcall & _ & Hheap & _).
  split; [exact Hcall | exact Hheap].
Defined.

(** ** The engine over a standard output that can refuse a line *)

Section ExecuteOnProperties.
Context {W : Type}.
Variable accepts : pystr -> bool.
Variable call_func : scalar -> W -> result pyval * W.

Lemma attempt_on_accepting verbose total i key (st : state W) :
  (verbose = true -> forall line, accepts line = true) ->
  attempt_on accepts call_func verbose total i key st
  = attempt call_func verbose total i key st.
Proof.
  intros Hacc. unfold attempt_on, attempt, bind, log_on, log, print_on.
  destruct verbose; [|reflexivity].
  rewrite (Hacc eq_refl []). simpl.
  destruct key as [| |s]; simpl; try reflexivity.
  rewrite (Hacc eq_refl (msg_trying (i + 1) total (masked s))). simpl.
  destruct (invoke call_func (SStr s) _) as [[v|e] st1]; [|reflexivity].
  rewrite (Hacc eq_refl (msg_success (i + 1))). reflexivity.
Qed.

Lemma for_loop_on_accepting verbose total keys :
  (verbose = true -> forall line, accepts line = true) ->
  forall i last (st : state W),
  for_loop_on accepts call_func verbose total i keys last st
  = for_loop call_func verbose total i keys last st.
Proof.
  intros Hacc. induction keys as [|key keys IH]; intros i last st; simpl.
  - unfold all_failed_on, all_failed, bind, log_on, log, print_on.
    destruct verbose; [|reflexivity].
    rewrite (Hacc eq_refl (msg_all_failed total)). reflexivity.
  - rewrite (attempt_on_accepting verbose total i key st Hacc).
    destruct (attempt call_func verbose total i key st) as [[v|e] st1];
      [reflexivity|].
    destruct (is_RateLimitError e); [|reflexivity].
    unfold log_on, log, print_on.
    destruct verbose; simpl; [|apply IH].
    rewrite (Hacc eq_refl (msg_rate_limit (i + 1))). simpl. apply IH.
Qed.

(** With [verbose] off, or over a standard output that accepts every
    line, [_execute_on] is [_execute]: what is proved of the one holds of
    the other. *)
Lemma execute_on_accepting api_keys verbose (st : state W) :
  (verbose = true -> forall line, accepts line = true) ->
  _execute_on accepts call_func api_keys verbose st
  = _execute call_func api_keys verbose st.
Proof.
  intros Hacc. unfold _execute_on, _execute, bind.
  destruct (normalize api_keys st) as [[v|e] st1]; [|reflexivity].
  destruct (py_iter v st1) as [[keys|e] st2]; [|reflexivity].
  apply for_loop_on_accepting, Hacc.
Qed.

End ExecuteOnProperties.

(** C7 does not hold of the code.  Two runs over a standard output that
    cannot encode a line.

    Over ASCII, on a pool of two keys whose first is rate-limited and
    whose second is answered: with [verbose] off the answer is returned
    after both keys were invoked; with [verbose] on the [print] of the
    handler raises [UnicodeEncodeError] at the cross of its message, the
    second key is never invoked and the error is what [_execute] raises.

    Over strict UTF-8, on a key that starts with a lone surrogate and that
    the provider answers: with [verbose] off the answer is returned after
    one invocation; with [verbose] on the [print] that announces the
    attempt raises and the key is never invoked. *)
Theorem refusing_stdout_changes_the_outcome :
  let st := Demo.fresh_run (SStr <$> [Demo.k1; Demo.k3]) 0 in
  let off := _execute_on Demo.ascii_stdout Demo.provider (VList Demo.pool)
               false st in
  let on := _execute_on Demo.ascii_stdout Demo.provider (VList Demo.pool)
              true st in
  let st2 := Demo.fresh_run [SStr Demo.surrogate_key] 0 in
  let off2 := _execute_on Demo.utf8_stdout Demo.lenient (VList Demo.pool)
                false st2 in
  let on2 := _execute_on Demo.utf8_stdout Demo.lenient (VList Demo.pool)
               true st2 in
  (fst off = Return Demo.ok /\
   calls (snd off) = [SStr Demo.k1; SStr Demo.k3]) /\
  (fst on = Raise UnicodeEncodeError /\
   calls (snd on) = [SStr Demo.k1]) /\
  (fst off2 = Return Demo.ok /\
   calls (snd off2) = [SStr Demo.surrogate_key]) /\
  (fst on2 = Raise UnicodeEncodeError /\
   calls (snd on2) = []).
Proof.
  cbv zeta. vm_compute. split_all; reflexivity.
Qed.
